(** * adcircSubdomainTool: click search, edge keys and the creation
      selection layer

    A shallow embedding of
    - [src/Quadtree/SearchTools/ClickSearch.cpp] (nearest node and
      containing element below a quadtree branch),
    - the [Edge] key of [src/SubdomainTools/BoundaryFinder.h],
    - the mouse protocol, the undo/redo stacks and the circle-tool slot of
      [src/Layers/SelectionLayers/CreationSelectionLayer.cpp],
    - the click search once more over an explicit store of cells, for what
      a query reads and writes,
    - the layer manager, the value slider and the colour of the solid
      shader.

    Numbers.  The C++ [float] values are modelled by exact rationals [Q]:
    every finite float is a rational, comparisons are the same, and the
    arithmetic is taken without rounding.  The concrete inputs evaluated
    below only use small integers and quotients by powers of two, on which
    float arithmetic is exact as well. *)

From Stdlib Require Import List Bool ZArith NArith QArith Lia.
From Stdlib Require Import Sorting.Sorted Sorting.Permutation.
Import ListNotations.

Local Open Scope Q_scope.

(** ** Comparisons on the rational model of [float] *)

Definition Qleb (a b : Q) : bool := Qle_bool a b.
Definition Qltb (a b : Q) : bool := negb (Qle_bool b a).

(** First non-null result of two attempts: the C++ idiom
    [result = f(..); if (result) return result; <next attempt>]. *)
Definition orelse {A : Type} (r : option A) (next : option A) : option A :=
  match r with
  | Some v => Some v
  | None => next
  end.

(** ** Mesh records ([adcData.h]) *)
Module adcData.

(** Modelled from the spec: [adcData.h] is not among the sources.  A Node
    has a stable integer identity, a position (x, y, z) and a normalized
    position; the code reads the members [nodeNumber], [normX] and
    [normY]. *)
Record Node : Type := mkNode {
  nodeNumber : N;
  x : Q;
  y : Q;
  z : Q;
  normX : Q;
  normY : Q
}.

(** Modelled from the spec: an Element has an integer identity and exactly
    three Node references; the code reads the members [n1], [n2], [n3]. *)
Record Element : Type := mkElement {
  elementNumber : N;
  n1 : Node;
  n2 : Node;
  n3 : Node
}.

End adcData.

(** ** Quadtree cells ([QuadtreeData.h]) *)
Module QuadtreeData.
Import adcData.

(** [float bounds[4]]: left, right, bottom, top, in that index order. *)
Record Bounds : Type := mkBounds {
  bounds0 : Q;
  bounds1 : Q;
  bounds2 : Q;
  bounds3 : Q
}.

(** A C array of four slots. *)
Record quad (A : Type) : Type := Quad { q0 : A; q1 : A; q2 : A; q3 : A }.
Arguments Quad {A} _ _ _ _.
Arguments q0 {A} _.
Arguments q1 {A} _.
Arguments q2 {A} _.
Arguments q3 {A} _.

(** Modelled from the spec: [QuadtreeData.h] is not among the sources.  A
    leaf is a cell with bounds that directly holds a list of Node
    references and a list of Element references. *)
Record leaf : Type := mkLeaf {
  leaf_bounds : Bounds;
  nodes : list Node;
  elements : list Element
}.

(** Modelled from the spec: a branch is a cell with bounds and four child
    slots.  The code reads [branches[i]] and [leaves[i]] for i = 0..3 and
    tests each pointer against null, so each slot is an optional branch
    together with an optional leaf. *)
#[local] Unset Elimination Schemes.
Inductive branch : Type :=
| mkBranch (bounds : Bounds)
           (branches : quad (option branch))
           (leaves : quad (option leaf)).
#[local] Set Elimination Schemes.

Definition bounds (b : branch) : Bounds :=
  match b with mkBranch bd _ _ => bd end.

(** Induction over branches, with the hypothesis available for each of the
    four child branches. *)
Definition opt_all {A : Type} (P : A -> Prop) (o : option A) : Prop :=
  match o with
  | Some a => P a
  | None => True
  end.

Fixpoint branch_ind' (P : branch -> Prop)
  (step : forall bd b0 b1 b2 b3 ls,
      opt_all P b0 -> opt_all P b1 -> opt_all P b2 -> opt_all P b3 ->
      P (mkBranch bd (Quad b0 b1 b2 b3) ls))
  (b : branch) {struct b} : P b :=
  match b with
  | mkBranch bd (Quad b0 b1 b2 b3) ls =>
      let rec o :=
        match o as o' return opt_all P o' with
        | Some c => branch_ind' P step c
        | None => I
        end in
      step bd b0 b1 b2 b3 ls (rec b0) (rec b1) (rec b2) (rec b3)
  end.

End QuadtreeData.

(** ** ClickSearch ([src/Quadtree/SearchTools/ClickSearch.cpp]) *)
Module ClickSearch.
Import adcData QuadtreeData.

(** The object state: the coordinates of the last query. *)
Record ClickSearch : Type := mkClickSearch {
  x : Q;
  y : Q
}.

(** [ClickSearch::ClickSearch()] *)
Definition new : ClickSearch := {| x := 0; y := 0 |}.

(** [ClickSearch::PointIsInsideSquare], the same test for a branch and for
    a leaf: closed on all four sides. *)
Definition PointIsInsideSquare (this : ClickSearch) (bd : Bounds) : bool :=
  Qleb (bounds0 bd) (x this) &&
  Qleb (x this) (bounds1 bd) &&
  Qleb (bounds2 bd) (y this) &&
  Qleb (y this) (bounds3 bd).

(** [ClickSearch::Distance] returns
    [sqrt(pow(x - normX, 2.0) + pow(y - normY, 2.0))].  The square root is
    strictly increasing on the non-negative numbers, so two distances
    compare as their squares do; the model keeps the square, which is
    rational. *)
Definition DistanceSq (this : ClickSearch) (currNode : Node) : Q :=
  (x this - normX currNode) ^ 2 + (y this - normY currNode) ^ 2.

(** The locals of the loop of [SearchNodes] on a leaf. *)
Record scan : Type := mkScan {
  itStarted : bool;
  currClosest : option Node;
  recordDistance : Q
}.

Definition scan_init : scan :=
  {| itStarted := false; currClosest := None; recordDistance := 0 |}.

(** One iteration of the loop over [currLeaf->nodes].  The first node sets
    the record; a later node closer than the record replaces
    [currClosest], and [recordDistance] is left as it is. *)
Definition scan_step (this : ClickSearch) (s : scan) (it : Node) : scan :=
  if negb (itStarted s) then
    {| itStarted := true;
       currClosest := Some it;
       recordDistance := DistanceSq this it |}
  else
    let currentDistance := DistanceSq this it in
    if Qltb currentDistance (recordDistance s) then
      {| itStarted := itStarted s;
         currClosest := Some it;
         recordDistance := recordDistance s |}
    else s.

(** [Node* ClickSearch::SearchNodes(leaf *currLeaf)] *)
Definition SearchNodes_leaf (this : ClickSearch) (currLeaf : leaf)
  : option Node :=
  if PointIsInsideSquare this (leaf_bounds currLeaf) then
    currClosest (fold_left (scan_step this) (nodes currLeaf) scan_init)
  else None.

(** [Node* ClickSearch::SearchNodes(branch *currBranch)]: for i = 0..3,
    first [branches[i]] and then [leaves[i]]; the first non-null result is
    returned. *)
Fixpoint SearchNodes_branch (this : ClickSearch) (currBranch : branch)
  {struct currBranch} : option Node :=
  match currBranch with
  | mkBranch bd (Quad b0 b1 b2 b3) (Quad l0 l1 l2 l3) =>
      if PointIsInsideSquare this bd then
        let inB ob := match ob with
                      | Some b => SearchNodes_branch this b
                      | None => None
                      end in
        let inL ol := match ol with
                      | Some l => SearchNodes_leaf this l
                      | None => None
                      end in
        orelse (inB b0) (orelse (inL l0)
        (orelse (inB b1) (orelse (inL l1)
        (orelse (inB b2) (orelse (inL l2)
        (orelse (inB b3) (orelse (inL l3) None)))))))
      else None
  end.

(** [bool ClickSearch::PointIsInsideElement(Element *currElement)], with
    the subtraction [y - p3->normX] of the source in the second weight. *)
Definition PointIsInsideElement (this : ClickSearch) (currElement : Element)
  : bool :=
  let p1 := n1 currElement in
  let p2 := n2 currElement in
  let p3 := n3 currElement in
  let denominator :=
    (normY p2 - normY p3) * (normX p1 - normX p3)
    + (normX p3 - normX p2) * (normY p1 - normY p3) in
  let a :=
    ((normY p2 - normY p3) * (x this - normX p3)
     + (normX p3 - normX p2) * (y this - normY p3)) / denominator in
  let b :=
    ((normY p3 - normY p1) * (x this - normX p3)
     + (normX p1 - normX p3) * (y this - normX p3)) / denominator in
  let c := 1 - a - b in
  Qltb 0 a && Qltb 0 b && Qltb 0 c.

(** [Element* ClickSearch::SearchElements(leaf *currLeaf)]: the first
    element of the leaf that passes the test. *)
Definition SearchElements_leaf (this : ClickSearch) (currLeaf : leaf)
  : option Element :=
  if PointIsInsideSquare this (leaf_bounds currLeaf) then
    find (PointIsInsideElement this) (elements currLeaf)
  else None.

(** [Element* ClickSearch::SearchElements(branch *currBranch)] *)
Fixpoint SearchElements_branch (this : ClickSearch) (currBranch : branch)
  {struct currBranch} : option Element :=
  match currBranch with
  | mkBranch bd (Quad b0 b1 b2 b3) (Quad l0 l1 l2 l3) =>
      if PointIsInsideSquare this bd then
        let inB ob := match ob with
                      | Some b => SearchElements_branch this b
                      | None => None
                      end in
        let inL ol := match ol with
                      | Some l => SearchElements_leaf this l
                      | None => None
                      end in
        orelse (inB b0) (orelse (inL l0)
        (orelse (inB b1) (orelse (inL l1)
        (orelse (inB b2) (orelse (inL l2)
        (orelse (inB b3) (orelse (inL l3) None)))))))
      else None
  end.

(** [Node* ClickSearch::FindNode(branch *root, float x, float y)]: stores
    the point in the object and searches.  The tree is only read; the
    result and the new object state are returned. *)
Definition FindNode (this : ClickSearch) (root : branch) (px py : Q)
  : option Node * ClickSearch :=
  let this' := {| x := px; y := py |} in
  (SearchNodes_branch this' root, this').

(** [Element* ClickSearch::FindElement(branch *root, float x, float y)] *)
Definition FindElement (this : ClickSearch) (root : branch) (px py : Q)
  : option Element * ClickSearch :=
  let this' := {| x := px; y := py |} in
  (SearchElements_branch this' root, this').

(** *** Vocabulary for the statements *)

Definition opt_list {A : Type} (o : option A) : list A :=
  match o with
  | Some a => [a]
  | None => []
  end.

(** All leaves below a branch, in the order the searches visit them. *)
Fixpoint all_leaves (b : branch) {struct b} : list leaf :=
  match b with
  | mkBranch _ (Quad b0 b1 b2 b3) (Quad l0 l1 l2 l3) =>
      let sub ob := match ob with
                    | Some c => all_leaves c
                    | None => []
                    end in
      sub b0 ++ opt_list l0 ++ sub b1 ++ opt_list l1 ++
      sub b2 ++ opt_list l2 ++ sub b3 ++ opt_list l3
  end.

(** The leaves the descent reaches for the stored point: those below
    branches whose square contains the point, in visiting order. *)
Fixpoint reached_leaves (this : ClickSearch) (b : branch) {struct b}
  : list leaf :=
  match b with
  | mkBranch bd (Quad b0 b1 b2 b3) (Quad l0 l1 l2 l3) =>
      if PointIsInsideSquare this bd then
        let sub ob := match ob with
                      | Some c => reached_leaves this c
                      | None => []
                      end in
        sub b0 ++ opt_list l0 ++ sub b1 ++ opt_list l1 ++
        sub b2 ++ opt_list l2 ++ sub b3 ++ opt_list l3
      else []
  end.

(** First non-null result of a function along a list. *)
Fixpoint first_some {A B : Type} (f : A -> option B) (l : list A)
  : option B :=
  match l with
  | [] => None
  | a :: l' => orelse (f a) (first_some f l')
  end.

(** A node of the list at least as close to the point as every node of the
    list. *)
Definition nearest_in (this : ClickSearch) (ns : list Node) (n : Node)
  : Prop :=
  In n ns /\ forall m, In m ns -> DistanceSq this n <= DistanceSq this m.

(** The point-in-triangle test in the words of the specification: the
    standard 2x2 solve for the barycentric weights a, b and c = 1 - a - b
    of q = (qx, qy) in (p1, p2, p3), all three strictly positive. *)
Definition barycentric_inside (qx qy : Q) (p1 p2 p3 : Node) : bool :=
  let det :=
    (normY p2 - normY p3) * (normX p1 - normX p3)
    + (normX p3 - normX p2) * (normY p1 - normY p3) in
  let a :=
    ((normY p2 - normY p3) * (qx - normX p3)
     + (normX p3 - normX p2) * (qy - normY p3)) / det in
  let b :=
    ((normY p3 - normY p1) * (qx - normX p3)
     + (normX p1 - normX p3) * (qy - normY p3)) / det in
  let c := 1 - a - b in
  Qltb 0 a && Qltb 0 b && Qltb 0 c.

(** Twice the signed area of (p1, p2, p3): zero exactly for collinear
    vertices. *)
Definition signed_area2 (p1 p2 p3 : Node) : Q :=
  (normY p2 - normY p3) * (normX p1 - normX p3)
  + (normX p3 - normX p2) * (normY p1 - normY p3).

End ClickSearch.

(** ** The leaf scan over the distances as the program computes them *)
Module ComputedDistance.
Import adcData QuadtreeData ClickSearch.

Section Scan.

(** [ClickSearch::Distance] computes in [float] and rounds; the scan only
    compares its results.  Here the values it returns are of any type
    [D], [Distance] is the function as computed, [less] is the comparison
    [<] on those values and [zero] the initial [0.0]. *)
Variable D : Type.
Variable Distance : ClickSearch -> Node -> D.
Variable less : D -> D -> bool.
Variable zero : D.

(** The locals of the loop of [SearchNodes] on a leaf. *)
Record scan : Type := mkScan {
  itStarted : bool;
  currClosest : option Node;
  recordDistance : D
}.

Definition scan_init : scan :=
  {| itStarted := false; currClosest := None; recordDistance := zero |}.

(** One iteration of the loop over [currLeaf->nodes]. *)
Definition scan_step (this : ClickSearch) (s : scan) (it : Node) : scan :=
  if negb (itStarted s) then
    {| itStarted := true;
       currClosest := Some it;
       recordDistance := Distance this it |}
  else
    let currentDistance := Distance this it in
    if less currentDistance (recordDistance s) then
      {| itStarted := itStarted s;
         currClosest := Some it;
         recordDistance := recordDistance s |}
    else s.

(** [Node* ClickSearch::SearchNodes(leaf *currLeaf)] *)
Definition SearchNodes_leaf (this : ClickSearch) (currLeaf : leaf)
  : option Node :=
  if PointIsInsideSquare this (leaf_bounds currLeaf) then
    currClosest (fold_left (scan_step this) (nodes currLeaf) scan_init)
  else None.

(** The node [n] is not farther than [m] as the program compares them. *)
Definition not_farther (this : ClickSearch) (n m : Node) : Prop :=
  less (Distance this m) (Distance this n) = false.

End Scan.

Arguments itStarted {D} _.
Arguments currClosest {D} _.
Arguments recordDistance {D} _.

End ComputedDistance.

(** ** ClickSearch over a store of cells *)
Module ClickSearchStore.
Import adcData QuadtreeData ClickSearch.

(** A pointer is an address; 0 is the null pointer. *)
Definition ptr : Type := N.

(** The cells behind [branch*], [leaf*] and [Element*]: the children of a
    branch and the contents of a leaf are pointers. *)
Record branch_cell : Type := mkBranchCell {
  cell_bounds : Bounds;
  cell_branches : quad ptr;
  cell_leaves : quad ptr
}.

Record leaf_cell : Type := mkLeafCell {
  lcell_bounds : Bounds;
  lcell_nodes : list ptr;
  lcell_elements : list ptr
}.

Record element_cell : Type := mkElementCell {
  cell_number : N;
  cell_n1 : ptr;
  cell_n2 : ptr;
  cell_n3 : ptr
}.

(** The memory the search can reach: what is stored at each address. *)
Record Store : Type := mkStore {
  branch_at : ptr -> option branch_cell;
  leaf_at : ptr -> option leaf_cell;
  node_at : ptr -> option Node;
  element_at : ptr -> option element_cell
}.

(** The state a query runs in: the store and the search object. *)
Record Machine : Type := mkMachine {
  store : Store;
  this : ClickSearch
}.

(** A computation reads and may write the state; [None] is a fault (a
    pointer to nothing) or the end of the recursion budget. *)
Definition M (A : Type) : Type := Machine -> option (A * Machine).

Definition ret {A : Type} (a : A) : M A := fun m => Some (a, m).

Definition bind {A B : Type} (c : M A) (k : A -> M B) : M B :=
  fun m =>
    match c m with
    | Some (a, m') => k a m'
    | None => None
    end.

Definition fault {A : Type} : M A := fun _ => None.

Notation "x <- c ;; k" := (bind c (fun x => k))
  (at level 61, c at next level, right associativity).

(** Reading through a pointer. *)
Definition load {A : Type} (table : Store -> ptr -> option A) (p : ptr)
  : M A :=
  fun m =>
    match table (store m) p with
    | Some c => Some (c, m)
    | None => None
    end.

Definition get_this : M ClickSearch := fun m => Some (this m, m).

(** [this->x = x; this->y = y;] *)
Definition set_point (px py : Q) : M unit :=
  fun m => Some (tt, {| store := store m; this := {| x := px; y := py |} |}).

Definition PointIsInsideSquare (bd : Bounds) : M bool :=
  cs <- get_this ;; ret (ClickSearch.PointIsInsideSquare cs bd).

(** [ClickSearch::Distance(Node *currNode)], as [DistanceSq]. *)
Definition Distance (currNode : ptr) : M Q :=
  n <- load node_at currNode ;;
  cs <- get_this ;;
  ret (DistanceSq cs n).

(** The loop of [SearchNodes] on a leaf, with its locals [itStarted],
    [currClosest] and [recordDistance]. *)
Fixpoint scan_nodes (its : list ptr)
  (itStarted : bool) (currClosest : ptr) (recordDistance : Q) : M ptr :=
  match its with
  | [] => ret currClosest
  | it :: rest =>
      if negb itStarted then
        d <- Distance it ;;
        scan_nodes rest true it d
      else
        currentDistance <- Distance it ;;
        if Qltb currentDistance recordDistance
        then scan_nodes rest itStarted it recordDistance
        else scan_nodes rest itStarted currClosest recordDistance
  end.

(** [Node* ClickSearch::SearchNodes(leaf *currLeaf)] *)
Definition SearchNodes_leaf (currLeaf : ptr) : M ptr :=
  c <- load leaf_at currLeaf ;;
  inside <- PointIsInsideSquare (lcell_bounds c) ;;
  if inside then scan_nodes (lcell_nodes c) false 0%N 0 else ret 0%N.

(** The attempts of the loop over i = 0..3, in order, until one returns a
    non-null pointer. *)
Fixpoint first_nonnull (attempts : list (M ptr)) : M ptr :=
  match attempts with
  | [] => ret 0%N
  | c :: rest =>
      result <- c ;;
      if (result =? 0)%N then first_nonnull rest else ret result
  end.

(** [Node* ClickSearch::SearchNodes(branch *currBranch)]; [budget] bounds
    the depth of the recursion. *)
Fixpoint SearchNodes_branch (budget : nat) (currBranch : ptr) : M ptr :=
  match budget with
  | O => fault
  | S budget' =>
      c <- load branch_at currBranch ;;
      inside <- PointIsInsideSquare (cell_bounds c) ;;
      if inside then
        let inB bp := if (bp =? 0)%N then ret 0%N
                      else SearchNodes_branch budget' bp in
        let inL lp := if (lp =? 0)%N then ret 0%N
                      else SearchNodes_leaf lp in
        match cell_branches c, cell_leaves c with
        | Quad b0 b1 b2 b3, Quad l0 l1 l2 l3 =>
            first_nonnull [inB b0; inL l0; inB b1; inL l1;
                           inB b2; inL l2; inB b3; inL l3]
        end
      else ret 0%N
  end.

(** [bool ClickSearch::PointIsInsideElement(Element *currElement)] *)
Definition PointIsInsideElement (currElement : ptr) : M bool :=
  e <- load element_at currElement ;;
  p1 <- load node_at (cell_n1 e) ;;
  p2 <- load node_at (cell_n2 e) ;;
  p3 <- load node_at (cell_n3 e) ;;
  cs <- get_this ;;
  ret (ClickSearch.PointIsInsideElement cs
         {| elementNumber := cell_number e;
            n1 := p1; n2 := p2; n3 := p3 |}).

Fixpoint scan_elements (its : list ptr) : M ptr :=
  match its with
  | [] => ret 0%N
  | it :: rest =>
      inside <- PointIsInsideElement it ;;
      if inside then ret it else scan_elements rest
  end.

(** [Element* ClickSearch::SearchElements(leaf *currLeaf)] *)
Definition SearchElements_leaf (currLeaf : ptr) : M ptr :=
  c <- load leaf_at currLeaf ;;
  inside <- PointIsInsideSquare (lcell_bounds c) ;;
  if inside then scan_elements (lcell_elements c) else ret 0%N.

(** [Element* ClickSearch::SearchElements(branch *currBranch)] *)
Fixpoint SearchElements_branch (budget : nat) (currBranch : ptr) : M ptr :=
  match budget with
  | O => fault
  | S budget' =>
      c <- load branch_at currBranch ;;
      inside <- PointIsInsideSquare (cell_bounds c) ;;
      if inside then
        let inB bp := if (bp =? 0)%N then ret 0%N
                      else SearchElements_branch budget' bp in
        let inL lp := if (lp =? 0)%N then ret 0%N
                      else SearchElements_leaf lp in
        match cell_branches c, cell_leaves c with
        | Quad b0 b1 b2 b3, Quad l0 l1 l2 l3 =>
            first_nonnull [inB b0; inL l0; inB b1; inL l1;
                           inB b2; inL l2; inB b3; inL l3]
        end
      else ret 0%N
  end.

(** [Node* ClickSearch::FindNode(branch *root, float x, float y)] *)
Definition FindNode (budget : nat) (root : ptr) (px py : Q) : M ptr :=
  _ <- set_point px py ;; SearchNodes_branch budget root.

(** [Element* ClickSearch::FindElement(branch *root, float x, float y)] *)
Definition FindElement (budget : nat) (root : ptr) (px py : Q) : M ptr :=
  _ <- set_point px py ;; SearchElements_branch budget root.

(** *** Vocabulary for the statements *)

Definition is_some {A : Type} (o : option A) : bool :=
  match o with
  | Some _ => true
  | None => false
  end.

(** The leaf at [lp] exists and every pointer it holds leads to a node,
    or to an element whose three pointers lead to nodes. *)
Definition wf_leaf (st : Store) (lp : ptr) : bool :=
  match leaf_at st lp with
  | Some c =>
      forallb (fun np => is_some (node_at st np)) (lcell_nodes c) &&
      forallb (fun ep =>
                 match element_at st ep with
                 | Some e => is_some (node_at st (cell_n1 e)) &&
                             is_some (node_at st (cell_n2 e)) &&
                             is_some (node_at st (cell_n3 e))
                 | None => false
                 end) (lcell_elements c)
  | None => false
  end.

(** The cells below [p] form a tree of at most [depth] levels of
    branches: every non-null child pointer leads to such a tree or to a
    leaf. *)
Fixpoint wf_branch (st : Store) (depth : nat) (p : ptr) : bool :=
  match depth with
  | O => false
  | S depth' =>
      match branch_at st p with
      | Some c =>
          match cell_branches c, cell_leaves c with
          | Quad b0 b1 b2 b3, Quad l0 l1 l2 l3 =>
              forallb (fun bp => (bp =? 0)%N || wf_branch st depth' bp)
                      [b0; b1; b2; b3] &&
              forallb (fun lp => (lp =? 0)%N || wf_leaf st lp)
                      [l0; l1; l2; l3]
          end
      | None => false
      end
  end.

(** A computation that, whenever it completes, leaves the whole state as
    it found it. *)
Definition reads_only {A : Type} (c : M A) : Prop :=
  forall m a m', c m = Some (a, m') -> m' = m.

(** A computation that completes from [m] and leaves it as it was. *)
Definition completes {A : Type} (c : M A) (m : Machine) : Prop :=
  exists a, c m = Some (a, m).

End ClickSearchStore.

(** ** The Edge key ([src/SubdomainTools/BoundaryFinder.h]) *)
Module BoundaryFinder.

Local Open Scope N_scope.

(** [struct Edge]: two [unsigned int] node IDs.  Only comparisons are
    applied to them, so the 32-bit range plays no role and the IDs are
    taken in [N]. *)
Record Edge : Type := mkEdge {
  n1 : N;
  n2 : N
}.

(** [Edge() : n1(0), n2(0)] *)
Definition Edge_default : Edge := {| n1 := 0; n2 := 0 |}.

(** [Edge(unsigned int first, unsigned int second)] *)
Definition Edge_of (first second : N) : Edge :=
  if first <? second then {| n1 := first; n2 := second |}
  else {| n1 := second; n2 := first |}.

(** [bool operator== (const Edge &e1) const] *)
Definition Edge_eq (e e1 : Edge) : bool :=
  (n1 e =? n1 e1) && (n2 e =? n2 e1).

(** [bool operator< (const Edge &e1) const] *)
Definition Edge_lt (e e1 : Edge) : bool :=
  if n1 e =? n1 e1 then n2 e <? n2 e1 else n1 e <? n1 e1.

(** Two keys are the same key of a [std::map<Edge, int>] when neither is
    less than the other. *)
Definition same_key (e e1 : Edge) : bool :=
  negb (Edge_lt e e1) && negb (Edge_lt e1 e).

(** The unordered pairs {a, b} and {c, d} coincide. *)
Definition same_pair (a b c d : N) : Prop :=
  (a = c /\ b = d) \/ (a = d /\ b = c).

End BoundaryFinder.

(** ** The creation selection layer
    ([src/Layers/SelectionLayers/CreationSelectionLayer.cpp]) *)
Module CreationSelectionLayer.

Local Open Scope Z_scope.

(** An [Element*]: the address of an Element of the mesh.  The layer only
    copies, compares and orders these pointers. *)
Definition ElementPtr : Type := Z.

(** Modelled from the spec: [ElementState.h] is not among the sources.  An
    ElementState owns the vector that [GetState()] points to; the default
    constructor gives the empty state and [ElementState(v)] holds a copy of
    [v]. *)
Record ElementState : Type := mkElementState {
  GetState : list ElementPtr
}.

Definition ElementState_new : ElementState := {| GetState := [] |}.

(** The member calls the layer makes on its circle tool from the mouse
    handlers. *)
Inductive ToolCall : Type :=
| SetCenter (x y : Z)
| SetRadiusPoint (x y : Z)
| CircleFinished.

(** Modelled from the spec: the CircleTool class is not among the sources.
    The tool turns "set center", "set radius point" and "finished" into one
    quadtree query and owns the centre and radius between events; it is
    represented by the sequence of those calls it has received, oldest
    first, which determines that state. *)
Record CircleTool : Type := mkCircleTool {
  calls : list ToolCall
}.

Definition CircleTool_new : CircleTool := {| calls := [] |}.

Definition receive (c : ToolCall) (t : CircleTool) : CircleTool :=
  {| calls := calls t ++ [c] |}.

(** Modelled from the spec: the macro [CIRCLETOOLINDEX] is defined in the
    missing header; the documentation of [UseTool] numbers the tools
    "0 - Stop using tools, 1 - CircleTool". *)
Definition CIRCLETOOLINDEX : Z := 1.

(** The members of the layer that the modelled functions read or write.
    [selectedState] and [circleTool] are pointers the code tests against
    null.  The two stacks hold pointers to states; every push is of a
    [selectedState] that has just been tested or made non-null, so their
    entries are states.  The head of a list is the top of the stack.  The
    OpenGL members and the emitted Qt signals are left out. *)
Record Layer : Type := mkLayer {
  activeTool : Z;
  circleTool : option CircleTool;
  selectedState : option ElementState;
  undoStack : list ElementState;
  redoStack : list ElementState;
  mousePressed : bool
}.

(** [CreationSelectionLayer::CreationSelectionLayer()], which ends with
    [CreateCircleTool()]. *)
Definition new : Layer :=
  {| activeTool := 1;
     circleTool := Some CircleTool_new;
     selectedState := None;
     undoStack := [];
     redoStack := [];
     mousePressed := false |}.

(** The guard [activeTool == CIRCLETOOLINDEX && circleTool] followed by a
    call on the tool. *)
Definition tell_tool (c : ToolCall) (s : Layer) : option CircleTool :=
  match circleTool s with
  | Some t => if activeTool s =? CIRCLETOOLINDEX then Some (receive c t)
              else Some t
  | None => None
  end.

(** [void CreationSelectionLayer::MouseClick(int x, int y)] *)
Definition MouseClick (x y : Z) (s : Layer) : Layer :=
  {| activeTool := activeTool s;
     circleTool := tell_tool (SetCenter x y) s;
     selectedState := selectedState s;
     undoStack := undoStack s;
     redoStack := redoStack s;
     mousePressed := true |}.

(** [void CreationSelectionLayer::MouseMove(int x, int y)] *)
Definition MouseMove (x y : Z) (s : Layer) : Layer :=
  if mousePressed s then
    {| activeTool := activeTool s;
       circleTool := tell_tool (SetRadiusPoint x y) s;
       selectedState := selectedState s;
       undoStack := undoStack s;
       redoStack := redoStack s;
       mousePressed := mousePressed s |}
  else s.

(** [void CreationSelectionLayer::MouseRelease(int x, int y)] *)
Definition MouseRelease (x y : Z) (s : Layer) : Layer :=
  {| activeTool := activeTool s;
     circleTool := tell_tool CircleFinished s;
     selectedState := selectedState s;
     undoStack := undoStack s;
     redoStack := redoStack s;
     mousePressed := false |}.

(** [void CreationSelectionLayer::Undo()] *)
Definition Undo (s : Layer) : Layer :=
  match undoStack s, selectedState s with
  | top :: rest, Some current =>
      {| activeTool := activeTool s;
         circleTool := circleTool s;
         selectedState := Some top;
         undoStack := rest;
         redoStack := current :: redoStack s;
         mousePressed := mousePressed s |}
  | _, _ => s
  end.

(** [void CreationSelectionLayer::Redo()] *)
Definition Redo (s : Layer) : Layer :=
  match redoStack s, selectedState s with
  | top :: rest, Some current =>
      {| activeTool := activeTool s;
         circleTool := circleTool s;
         selectedState := Some top;
         undoStack := current :: undoStack s;
         redoStack := rest;
         mousePressed := mousePressed s |}
  | _, _ => s
  end.

(** [std::sort] on a vector of pointers orders them by address.  The
    result is the ascending arrangement of the input, whichever algorithm
    produces it; insertion is used here. *)
Fixpoint insert_sorted (p : ElementPtr) (l : list ElementPtr)
  : list ElementPtr :=
  match l with
  | [] => [p]
  | q :: l' => if p <=? q then p :: q :: l' else q :: insert_sorted p l'
  end.

Fixpoint sort (l : list ElementPtr) : list ElementPtr :=
  match l with
  | [] => []
  | p :: l' => insert_sorted p (sort l')
  end.

(** [std::unique] followed by the [resize]: of every run of equal
    neighbours one pointer is kept. *)
Fixpoint unique (l : list ElementPtr) : list ElementPtr :=
  match l with
  | [] => []
  | p :: l' =>
      match l' with
      | [] => [p]
      | q :: _ => if p =? q then unique l' else p :: unique l'
      end
  end.

(** The elements the layer shows as selected: those of [selectedState], and
    none when the pointer is null (as [GetNumElementsSelected] counts). *)
Definition current_selection (s : Layer) : list ElementPtr :=
  match selectedState s with
  | Some st => GetState st
  | None => []
  end.

Section CircleToolSlot.

(** Modelled from the spec: [CircleTool::GetSelectedElements()] is not
    among the sources; it returns the elements matched by the tool's
    query.  Any function of the tool stands for it. *)
Variable GetSelectedElements : CircleTool -> list ElementPtr.

(** [void CreationSelectionLayer::CircleToolFinishedSearching()].
    [ClearRedoStack()] empties the redo stack; [LoadDataToGPU()] touches
    none of the modelled members. *)
Definition CircleToolFinishedSearching (s : Layer) : Layer :=
  let selected :=
    match selectedState s with
    | Some st => st
    | None => ElementState_new
    end in
  match circleTool s with
  | Some tool =>
      let newList := GetSelectedElements tool in
      let currList := GetState selected in
      if (0 <? length newList)%nat then
        let newState :=
          if (0 <? length currList)%nat then
            {| GetState := unique (sort (newList ++ currList)) |}
          else {| GetState := newList |} in
        {| activeTool := activeTool s;
           circleTool := circleTool s;
           selectedState := Some newState;
           undoStack := selected :: undoStack s;
           redoStack := [];
           mousePressed := mousePressed s |}
      else
        {| activeTool := activeTool s;
           circleTool := circleTool s;
           selectedState := Some selected;
           undoStack := undoStack s;
           redoStack := redoStack s;
           mousePressed := mousePressed s |}
  | None =>
      {| activeTool := activeTool s;
         circleTool := circleTool s;
         selectedState := Some selected;
         undoStack := undoStack s;
         redoStack := redoStack s;
         mousePressed := mousePressed s |}
  end.

End CircleToolSlot.

(** *** The mouse protocol as a sequence of events *)

Inductive MouseEvent : Type :=
| Click (x y : Z)
| Move (x y : Z)
| Release (x y : Z).

Definition handle (s : Layer) (e : MouseEvent) : Layer :=
  match e with
  | Click x y => MouseClick x y s
  | Move x y => MouseMove x y s
  | Release x y => MouseRelease x y s
  end.

Definition run (s : Layer) (evs : list MouseEvent) : Layer :=
  fold_left handle evs s.

Definition is_release (e : MouseEvent) : bool :=
  match e with
  | Release _ _ => true
  | _ => false
  end.

(** The history [evs] ends strictly between a click and the following
    release: it contains a click after which no release has come. *)
Definition button_held (evs : list MouseEvent) : Prop :=
  exists before x y after,
    evs = before ++ Click x y :: after /\
    forallb (fun e => negb (is_release e)) after = true.

Definition is_click (e : MouseEvent) : bool :=
  match e with
  | Click _ _ => true
  | _ => false
  end.

(** The same reading of a history as a computation: the button is down
    after a click, up after a release, and as before after a move. *)
Fixpoint pressed_after (down : bool) (evs : list MouseEvent) : bool :=
  match evs with
  | [] => down
  | e :: evs' =>
      pressed_after
        (if is_click e then true else if is_release e then false else down)
        evs'
  end.

(** The calls the circle tool has received so far. *)
Definition tool_calls (s : Layer) : list ToolCall :=
  match circleTool s with
  | Some t => calls t
  | None => []
  end.

(** The circle tool exists and is the active tool. *)
Definition tool_active (s : Layer) : Prop :=
  activeTool s = CIRCLETOOLINDEX /\ circleTool s <> None.

(** *** Further members of the layer *)

(** [unsigned int CreationSelectionLayer::GetNumElementsSelected()] *)
Definition GetNumElementsSelected (s : Layer) : nat :=
  match selectedState s with
  | Some st => length (GetState st)
  | None => 0%nat
  end.

(** [void CreationSelectionLayer::ClearUndoStack()]: pops until empty. *)
Definition ClearUndoStack (s : Layer) : Layer :=
  {| activeTool := activeTool s;
     circleTool := circleTool s;
     selectedState := selectedState s;
     undoStack := [];
     redoStack := redoStack s;
     mousePressed := mousePressed s |}.

(** [void CreationSelectionLayer::ClearRedoStack()] *)
Definition ClearRedoStack (s : Layer) : Layer :=
  {| activeTool := activeTool s;
     circleTool := circleTool s;
     selectedState := selectedState s;
     undoStack := undoStack s;
     redoStack := [];
     mousePressed := mousePressed s |}.

Section Tools.

(** The macro [AVAILABLETOOLS] of the missing header: the largest tool
    ID. *)
Variable AVAILABLETOOLS : Z.

(** [void CreationSelectionLayer::UseTool(int toolID)] *)
Definition UseTool (toolID : Z) (s : Layer) : Layer :=
  if (0 <=? toolID) && (toolID <=? AVAILABLETOOLS) then
    {| activeTool := toolID;
       circleTool :=
         if toolID =? CIRCLETOOLINDEX then
           match circleTool s with
           | Some t => Some t
           | None => Some CircleTool_new
           end
         else circleTool s;
       selectedState := selectedState s;
       undoStack := undoStack s;
       redoStack := redoStack s;
       mousePressed := mousePressed s |}
  else s.

(** The tool ID is one the layer has, and the circle tool exists whenever
    it is the active one. *)
Definition tools_ok (s : Layer) : Prop :=
  0 <= activeTool s <= AVAILABLETOOLS /\
  (activeTool s = CIRCLETOOLINDEX -> circleTool s <> None).

End Tools.

(** The states of the layer in the order the user made them: the undo
    stack from its bottom, the current state, the redo stack from its
    top. *)
Definition timeline (s : Layer) : list ElementState :=
  rev (undoStack s)
  ++ match selectedState s with Some st => [st] | None => [] end
  ++ redoStack s.

(** The radius points of a list of moves. *)
Definition move_call (p : Z * Z) : ToolCall := SetRadiusPoint (fst p) (snd p).
Definition move_event (p : Z * Z) : MouseEvent := Move (fst p) (snd p).

End CreationSelectionLayer.

(** ** The layer manager ([LayerManager.cpp], the second part of
    [src/Layers/TerrainLayer.h]) *)
Module LayerManager.

Local Open Scope N_scope.

Section Manager.

(** The class [Layer] of the missing [Layer.h] and its member [GetID()]. *)
Variable Layer : Type.
Variable GetID : Layer -> N.

(** The three vectors of the manager.  [terrainLayers] only receives the
    result of a successful [new]; the slots of [visibleLayers] and
    [hiddenLayers] are pointers that may be null. *)
Record LayerManager : Type := mkLayerManager {
  terrainLayers : list Layer;
  visibleLayers : list (option Layer);
  hiddenLayers : list (option Layer)
}.

(** The vectors of a constructed manager are empty. *)
Definition new : LayerManager :=
  {| terrainLayers := []; visibleLayers := []; hiddenLayers := [] |}.

(** [Layer* LayerManager::GetLayerByID(unsigned int layerID)] *)
Definition GetLayerByID (layerID : N) (m : LayerManager) : option Layer :=
  find (fun l => GetID l =? layerID) (terrainLayers m).

(** [void LayerManager::DisplayLayer(unsigned int layerID)] *)
Definition DisplayLayer (layerID : N) (m : LayerManager) : LayerManager :=
  {| terrainLayers := terrainLayers m;
     visibleLayers := visibleLayers m ++ [GetLayerByID layerID m];
     hiddenLayers := hiddenLayers m ++ [None] |}.

(** [void LayerManager::DisplayLayerUnique(unsigned int layerID)] *)
Definition DisplayLayerUnique (layerID : N) (m : LayerManager)
  : LayerManager :=
  DisplayLayer layerID
    {| terrainLayers := terrainLayers m;
       visibleLayers := [];
       hiddenLayers := [] |}.

(** The list effect of [LayerManager::CreateNewTerrainLayer]: the new
    object is appended to [terrainLayers] and its ID returned. *)
Definition CreateNewTerrainLayer (newLayer : Layer) (m : LayerManager)
  : N * LayerManager :=
  (GetID newLayer,
   {| terrainLayers := terrainLayers m ++ [newLayer];
      visibleLayers := visibleLayers m;
      hiddenLayers := hiddenLayers m |}).

Definition is_null {A : Type} (p : option A) : bool :=
  match p with
  | Some _ => false
  | None => true
  end.

(** The loop of [HideLayer] over the slots i = 0, 1, ...: the test
    [visibleLayers[i]->GetID() == layerID && hiddenLayers[i] == 0]
    dereferences [visibleLayers[i]] first; [None] is the dereference of a
    null pointer. *)
Fixpoint hide_loop (layerID : N) (vs hs : list (option Layer))
  : option (list (option Layer) * list (option Layer)) :=
  match vs, hs with
  | v :: vs', h :: hs' =>
      match v with
      | None => None
      | Some l =>
          match hide_loop layerID vs' hs' with
          | None => None
          | Some (vs'', hs'') =>
              if (GetID l =? layerID) && is_null h
              then Some (None :: vs'', Some l :: hs'')
              else Some (v :: vs'', h :: hs'')
          end
      end
  | _, _ => Some (vs, hs)
  end.

(** [void LayerManager::HideLayer(unsigned int layerID)] *)
Definition HideLayer (layerID : N) (m : LayerManager)
  : option LayerManager :=
  if (length (visibleLayers m) =? length (hiddenLayers m))%nat then
    match hide_loop layerID (visibleLayers m) (hiddenLayers m) with
    | Some (vs, hs) =>
        Some {| terrainLayers := terrainLayers m;
                visibleLayers := vs;
                hiddenLayers := hs |}
    | None => None
    end
  else Some m.

(** The loop of [ShowLayer]: the test
    [hiddenLayers[i]->GetID() == layerID && visibleLayers[i] == 0]
    dereferences [hiddenLayers[i]] first. *)
Fixpoint show_loop (layerID : N) (vs hs : list (option Layer))
  : option (list (option Layer) * list (option Layer)) :=
  match vs, hs with
  | v :: vs', h :: hs' =>
      match h with
      | None => None
      | Some l =>
          match show_loop layerID vs' hs' with
          | None => None
          | Some (vs'', hs'') =>
              if (GetID l =? layerID) && is_null v
              then Some (Some l :: vs'', None :: hs'')
              else Some (v :: vs'', h :: hs'')
          end
      end
  | _, _ => Some (vs, hs)
  end.

(** [void LayerManager::ShowLayer(unsigned int layerID)] *)
Definition ShowLayer (layerID : N) (m : LayerManager)
  : option LayerManager :=
  if (length (visibleLayers m) =? length (hiddenLayers m))%nat then
    match show_loop layerID (visibleLayers m) (hiddenLayers m) with
    | Some (vs, hs) =>
        Some {| terrainLayers := terrainLayers m;
                visibleLayers := vs;
                hiddenLayers := hs |}
    | None => None
    end
  else Some m.

(** [void LayerManager::DrawVisibleLayers()]: the layers whose [Draw()] is
    called, in order; [visibleLayers[i]->Draw()] dereferences every slot. *)
Fixpoint draw_loop (vs : list (option Layer)) : option (list Layer) :=
  match vs with
  | [] => Some []
  | None :: _ => None
  | Some l :: vs' =>
      match draw_loop vs' with
      | Some ls => Some (l :: ls)
      | None => None
      end
  end.

Definition DrawVisibleLayers (m : LayerManager) : option (list Layer) :=
  draw_loop (visibleLayers m).

(** *** Vocabulary for the statements *)

(** The layer of slot i, shown or hidden: the display order. *)
Fixpoint slots (vs hs : list (option Layer)) : list (option Layer) :=
  match vs, hs with
  | v :: vs', h :: hs' => orelse v h :: slots vs' hs'
  | _, _ => []
  end.

(** The vectors have one size and no slot is both shown and hidden. *)
Definition same_size (m : LayerManager) : Prop :=
  length (visibleLayers m) = length (hiddenLayers m).

Fixpoint exclusive (vs hs : list (option Layer)) : Prop :=
  match vs, hs with
  | v :: vs', h :: hs' => (v = None \/ h = None) /\ exclusive vs' hs'
  | _, _ => True
  end.

(** Every slot is shown: no visible pointer is null, every hidden one
    is. *)
Definition all_shown (m : LayerManager) : Prop :=
  same_size m /\
  Forall (fun v => v <> None) (visibleLayers m) /\
  Forall (fun h => h = None) (hiddenLayers m).

(** What [HideLayer] leaves in the visible slot of a shown layer. *)
Definition hidden_if (layerID : N) (v : option Layer) : option Layer :=
  match v with
  | Some l => if GetID l =? layerID then None else Some l
  | None => None
  end.

Definition taken_if (layerID : N) (v : option Layer) : option Layer :=
  match v with
  | Some l => if GetID l =? layerID then Some l else None
  | None => None
  end.

(** The visible slot holds a layer with this ID. *)
Definition shows (layerID : N) (v : option Layer) : Prop :=
  match v with
  | Some l => GetID l = layerID
  | None => False
  end.

End Manager.

Arguments shows {Layer} GetID layerID v.
Arguments GetLayerByID {Layer} GetID layerID m.
Arguments DisplayLayer {Layer} GetID layerID m.
Arguments DisplayLayerUnique {Layer} GetID layerID m.
Arguments CreateNewTerrainLayer {Layer} GetID newLayer m.
Arguments hide_loop {Layer} GetID layerID vs hs.
Arguments show_loop {Layer} GetID layerID vs hs.
Arguments HideLayer {Layer} GetID layerID m.
Arguments ShowLayer {Layer} GetID layerID m.
Arguments draw_loop {Layer} vs.
Arguments hidden_if {Layer} GetID layerID v.
Arguments taken_if {Layer} GetID layerID v.
Arguments terrainLayers {Layer} _.
Arguments visibleLayers {Layer} _.
Arguments hiddenLayers {Layer} _.
Arguments new {Layer}.
Arguments DrawVisibleLayers {Layer} _.
Arguments same_size {Layer} _.
Arguments exclusive {Layer} _ _.
Arguments slots {Layer} _ _.
Arguments all_shown {Layer} _.

End LayerManager.

(** ** The value slider ([ValueSlider.cpp], [src/unnamed/part_001]) *)
Module ValueSlider.

Local Open Scope Z_scope.

(** The [int] members of the widget that the modelled functions use, and
    [trianglePoint].  The [int] arithmetic is taken in [Z]; the statements
    below say where no [int] overflows ([no_overflow]). *)
Record ValueSlider : Type := mkValueSlider {
  currentHue : Z;
  currentSaturation : Z;
  currentValue : Z;
  minHue : Z;
  maxHue : Z;
  minSat : Z;
  maxSat : Z;
  minVal : Z;
  maxVal : Z;
  triangleWidth : Z;
  triangleHeight : Z;
  trianglePoint : Z * Z
}.

(** The members set by [ValueSlider::ValueSlider]; [trianglePoint] is a
    default [QPoint]. *)
Definition new : ValueSlider :=
  {| currentHue := 0; currentSaturation := 0; currentValue := 200;
     minHue := 0; maxHue := 359; minSat := 0; maxSat := 255;
     minVal := 0; maxVal := 255;
     triangleWidth := 10; triangleHeight := 7;
     trianglePoint := (0, 0) |}.

(** [int ValueSlider::GetSelectedValue()] *)
Definition GetSelectedValue (s : ValueSlider) : Z := currentValue s.

(** Qt's [contentsRect()]: position and size, supplied by the caller. *)
Record Rect : Type := mkRect {
  rect_x : Z;
  rect_y : Z;
  rect_width : Z;
  rect_height : Z
}.

(** [int ValueSlider::ValFromY(int y)]:
    [maxVal - y * (maxVal - minVal) / contentsRect().height()], with the
    truncating division of C++; [None] is the division by zero. *)
Definition ValFromY (height : Z) (s : ValueSlider) (y : Z) : option Z :=
  if height =? 0 then None
  else Some (maxVal s - Z.quot (y * (maxVal s - minVal s)) height).

Definition set_value (s : ValueSlider) (val : Z) (tp : Z * Z) : ValueSlider :=
  {| currentHue := currentHue s;
     currentSaturation := currentSaturation s;
     currentValue := val;
     minHue := minHue s; maxHue := maxHue s;
     minSat := minSat s; maxSat := maxSat s;
     minVal := minVal s; maxVal := maxVal s;
     triangleWidth := triangleWidth s;
     triangleHeight := triangleHeight s;
     trianglePoint := tp |}.

(** [void ValueSlider::mousePressEvent(QMouseEvent *event)] for the
    position [(px, py)]; [left] is [event->button() == Qt::LeftButton].
    The other buttons go to [QFrame] and leave the members alone. *)
Definition mousePressEvent (rect : Rect) (left : bool) (px py : Z)
  (s : ValueSlider) : option ValueSlider :=
  if left then
    match ValFromY (rect_height rect) s (py - rect_y rect) with
    | None => None
    | Some val =>
        if (val <? minVal s) || (val >? maxVal s) then Some s
        else Some (set_value s val (rect_width rect - triangleWidth s, py))
    end
  else Some s.

(** [void ValueSlider::mouseMoveEvent(QMouseEvent *event)]; [left] is
    [event->buttons() & Qt::LeftButton] and [inside] the result of
    [contentsRect().contains(point)]. *)
Definition mouseMoveEvent (rect : Rect) (left inside : bool) (px py : Z)
  (s : ValueSlider) : option ValueSlider :=
  if left then
    if negb inside then Some s
    else
      match ValFromY (rect_height rect) s (py - rect_y rect) with
      | None => None
      | Some val =>
          if (val <? minVal s) || (val >? maxVal s) then Some s
          else Some (set_value s val (rect_width rect - triangleWidth s, py))
      end
  else Some s.

(** [void ValueSlider::setColor(const QColor &c)], where [h] and [st] are
    the hue and saturation that [c.getHsv] writes. *)
Definition setColor (h st : Z) (s : ValueSlider) : ValueSlider :=
  let h1 := if h <? minHue s then minHue s else h in
  let h2 := if h1 >? maxHue s then maxHue s else h1 in
  let s1 := if st <? minSat s then minSat s else st in
  let s2 := if s1 >? maxSat s then maxSat s else s1 in
  {| currentHue := h2;
     currentSaturation := s2;
     currentValue := currentValue s;
     minHue := minHue s; maxHue := maxHue s;
     minSat := minSat s; maxSat := maxSat s;
     minVal := minVal s; maxVal := maxVal s;
     triangleWidth := triangleWidth s;
     triangleHeight := triangleHeight s;
     trianglePoint := trianglePoint s |}.

(** The range of [int], and the condition that [ValFromY(y)] is computed
    without [int] overflow: the difference, the product and the result
    are in the range. *)
Definition is_int (v : Z) : Prop := -2147483648 <= v <= 2147483647.

Definition no_overflow (height : Z) (s : ValueSlider) (y : Z) : Prop :=
  is_int y /\
  is_int (maxVal s - minVal s) /\
  is_int (y * (maxVal s - minVal s)) /\
  is_int (maxVal s - Z.quot (y * (maxVal s - minVal s)) height).

(** The selected value is between the two limits. *)
Definition value_in_range (s : ValueSlider) : Prop :=
  minVal s <= currentValue s <= maxVal s.

End ValueSlider.

(** ** The colour of the solid shader
    ([src/OpenGL/Shaders/SolidShader.cpp]) *)
Module SolidShader.

(** [float rgba[4]] *)
Record Color : Type := mkColor {
  rgba0 : Q;
  rgba1 : Q;
  rgba2 : Q;
  rgba3 : Q
}.

(** The colour set by [SolidShader::SolidShader()]. *)
Definition white : Color :=
  {| rgba0 := 1; rgba1 := 1; rgba2 := 1; rgba3 := 1 |}.

(** [void SolidShader::SetColor(float r, float g, float b, float a)] *)
Definition SetColor (r g b a : Q) (c : Color) : Color :=
  {| rgba0 := if Qleb 0 r then r else rgba0 c;
     rgba1 := if Qleb 0 g then g else rgba1 c;
     rgba2 := if Qleb 0 b then b else rgba2 c;
     rgba3 := if Qleb 0 a then a else rgba3 c |}.

(** No component is negative. *)
Definition non_negative (c : Color) : Prop :=
  0 <= rgba0 c /\ 0 <= rgba1 c /\ 0 <= rgba2 c /\ 0 <= rgba3 c.

End SolidShader.

(** ** Concrete meshes and layers used in the evaluations below *)
Module Examples.
Import adcData QuadtreeData.

(** A node whose position is already normalized. *)
Definition node_at (id : N) (px py : Q) : Node :=
  {| nodeNumber := id; x := px; y := py; z := 0;
     normX := px; normY := py |}.

(** Three nodes of one leaf, in mesh order. *)
Definition nodeA : Node := node_at 1 (3#4) (1#4).
Definition nodeB : Node := node_at 2 (1#4) (1#4).
Definition nodeC : Node := node_at 3 (1#2) (1#4).

Definition empty_leaf (l r b t : Q) : leaf :=
  {| leaf_bounds := mkBounds l r b t; nodes := []; elements := [] |}.

(** The top-right quadrant of the square [-1,1] x [-1,1], holding the three
    nodes. *)
Definition top_right : leaf :=
  {| leaf_bounds := mkBounds 0 1 0 1;
     nodes := [nodeA; nodeB; nodeC];
     elements := [] |}.

(** A root over [-1,1] x [-1,1] with four leaves (bottom-left,
    bottom-right, top-left, top-right) and no child branch. *)
Definition root : branch :=
  mkBranch (mkBounds (-1) 1 (-1) 1)
           (Quad None None None None)
           (Quad (Some (empty_leaf (-1) 0 (-1) 0))
                 (Some (empty_leaf 0 1 (-1) 0))
                 (Some (empty_leaf (-1) 0 0 1))
                 (Some top_right)).

(** The triangle (0,1), (0,0), (1,0). *)
Definition corner1 : Node := node_at 1 0 1.
Definition corner2 : Node := node_at 2 0 0.
Definition corner3 : Node := node_at 3 1 0.
Definition triangle : Element :=
  {| elementNumber := 1; n1 := corner1; n2 := corner2; n3 := corner3 |}.

(** A root whose top-right leaf holds the triangle and its corners. *)
Definition root_with_triangle : branch :=
  mkBranch (mkBounds (-1) 1 (-1) 1)
           (Quad None None None None)
           (Quad (Some (empty_leaf (-1) 0 (-1) 0))
                 (Some (empty_leaf 0 1 (-1) 0))
                 (Some (empty_leaf (-1) 0 0 1))
                 (Some {| leaf_bounds := mkBounds 0 1 0 1;
                          nodes := [corner1; corner2; corner3];
                          elements := [triangle] |})).

(** A triangle that passes the coded test at (1/8, 1/8): its third vertex
    has equal coordinates. *)
Definition triangle' : Element :=
  {| elementNumber := 2;
     n1 := node_at 4 1 0; n2 := node_at 5 0 1; n3 := node_at 6 0 0 |}.

Definition root_with_triangle' : branch :=
  mkBranch (mkBounds (-1) 1 (-1) 1)
           (Quad None None None None)
           (Quad None None None
                 (Some {| leaf_bounds := mkBounds 0 1 0 1;
                          nodes := [];
                          elements := [triangle'] |})).

(** A layer after one circle selection of the elements at 1 and 2: the
    selection is current and the empty state is on the undo stack. *)
Definition selected_once : CreationSelectionLayer.Layer :=
  CreationSelectionLayer.CircleToolFinishedSearching
    (fun _ => [1; 2]%Z) CreationSelectionLayer.new.

(** The cells of [root] in a store: the root branch at address 1, its
    four leaves at 2..5, the three nodes at 10..12. *)
Definition store : ClickSearchStore.Store :=
  {| ClickSearchStore.branch_at := fun p =>
       if (p =? 1)%N then
         Some (ClickSearchStore.mkBranchCell (mkBounds (-1) 1 (-1) 1)
                 (Quad 0 0 0 0) (Quad 2 3 4 5))%N
       else None;
     ClickSearchStore.leaf_at := fun p =>
       if (p =? 2)%N then
         Some (ClickSearchStore.mkLeafCell (mkBounds (-1) 0 (-1) 0) [] [])
       else if (p =? 3)%N then
         Some (ClickSearchStore.mkLeafCell (mkBounds 0 1 (-1) 0) [] [])
       else if (p =? 4)%N then
         Some (ClickSearchStore.mkLeafCell (mkBounds (-1) 0 0 1) [] [])
       else if (p =? 5)%N then
         Some (ClickSearchStore.mkLeafCell (mkBounds 0 1 0 1)
                 [10; 11; 12]%N [20]%N)
       else None;
     ClickSearchStore.node_at := fun p =>
       if (p =? 10)%N then Some nodeA
       else if (p =? 11)%N then Some nodeB
       else if (p =? 12)%N then Some nodeC
       else None;
     ClickSearchStore.element_at := fun p =>
       if (p =? 20)%N then
         Some (ClickSearchStore.mkElementCell 1 10 11 12)%N
       else None |}.

(** A manager of layers that are their own IDs, with the terrain layers
    1 and 2 created and displayed in that order. *)
Definition two_layers : LayerManager.LayerManager N :=
  LayerManager.DisplayLayer (fun id => id) 2%N
    (LayerManager.DisplayLayer (fun id => id) 1%N
       (snd (LayerManager.CreateNewTerrainLayer (fun id => id) 2%N
          (snd (LayerManager.CreateNewTerrainLayer (fun id => id) 1%N
             LayerManager.new))))).

(** The same manager showing only layer 1. *)
Definition one_layer : LayerManager.LayerManager N :=
  LayerManager.DisplayLayerUnique (fun id => id) 1%N two_layers.

End Examples.

(** * Properties *)

(** ** Comparisons *)

Lemma Qleb_le (a b : Q) : Qleb a b = true <-> a <= b.
Proof. unfold Qleb. apply Qle_bool_iff. Qed.

Lemma Qltb_lt (a b : Q) : Qltb a b = true <-> a < b.
Proof.
  unfold Qltb. rewrite negb_true_iff. split.
  - intros H. apply Qnot_le_lt. intros Hle.
    apply Qle_bool_iff in Hle. congruence.
  - intros H. destruct (Qle_bool b a) eqn:E; [|reflexivity].
    apply Qle_bool_iff in E. exfalso. exact (Qlt_not_le _ _ H E).
Qed.

(** ** First non-null results *)

Lemma orelse_None_r {A : Type} (r : option A) : orelse r None = r.
Proof. destruct r; reflexivity. Qed.

Lemma orelse_assoc {A : Type} (a b c : option A) :
  orelse (orelse a b) c = orelse a (orelse b c).
Proof. destruct a; reflexivity. Qed.

Section FirstSome.
Import ClickSearch.
Context {A B : Type} (f : A -> option B).

Lemma first_some_app (l1 l2 : list A) :
  first_some f (l1 ++ l2) = orelse (first_some f l1) (first_some f l2).
Proof.
  induction l1 as [|a l1 IH]; simpl; [reflexivity|].
  rewrite IH. symmetry. apply orelse_assoc.
Qed.

Lemma first_some_opt_list (o : option A) :
  first_some f (opt_list o) = match o with Some a => f a | None => None end.
Proof. destruct o; simpl; [apply orelse_None_r | reflexivity]. Qed.

Lemma first_some_Some (l : list A) (r : B) :
  first_some f l = Some r -> exists a, In a l /\ f a = Some r.
Proof.
  induction l as [|a l IH]; simpl; [discriminate|].
  destruct (f a) as [v|] eqn:E; simpl.
  - intros H. exists a. split; [now left | congruence].
  - intros H. destruct (IH H) as [a' [Hin Ha']].
    exists a'. split; [now right | assumption].
Qed.

Lemma first_some_None (l : list A) :
  first_some f l = None <-> forall a, In a l -> f a = None.
Proof.
  induction l as [|a l IH]; simpl.
  - split; [intros _ a [] | reflexivity].
  - destruct (f a) as [v|] eqn:E; simpl.
    + split; [discriminate|].
      intros H. rewrite <- E. apply H. now left.
    + rewrite IH. split.
      * intros H a' [<-|Hin]; [assumption | now apply H].
      * intros H a' Hin. apply H. now right.
Qed.

End FirstSome.

(** ** The descent of the click search *)
Section Descent.
Import adcData QuadtreeData ClickSearch.

Variable this : ClickSearch.

(** Rewrites the eight slots of a branch into searches along lists. *)
Ltac slots IH0 IH1 IH2 IH3 :=
  repeat rewrite first_some_app;
  repeat rewrite first_some_opt_list;
  repeat match goal with
         | o : option branch |- _ => destruct o; simpl in *
         end;
  repeat match goal with
         | H : _ = _ |- _ => rewrite H; clear H
         end;
  repeat rewrite orelse_None_r;
  reflexivity.

(** The node search returns the first non-null leaf result along the
    leaves the descent reaches. *)
Lemma SearchNodes_branch_reached (b : branch) :
  SearchNodes_branch this b
  = first_some (SearchNodes_leaf this) (reached_leaves this b).
Proof.
  induction b as [bd b0 b1 b2 b3 [l0 l1 l2 l3] IH0 IH1 IH2 IH3]
    using branch_ind'.
  simpl. destruct (PointIsInsideSquare this bd); [|reflexivity].
  slots IH0 IH1 IH2 IH3.
Qed.

(** The element search likewise. *)
Lemma SearchElements_branch_reached (b : branch) :
  SearchElements_branch this b
  = first_some (SearchElements_leaf this) (reached_leaves this b).
Proof.
  induction b as [bd b0 b1 b2 b3 [l0 l1 l2 l3] IH0 IH1 IH2 IH3]
    using branch_ind'.
  simpl. destruct (PointIsInsideSquare this bd); [|reflexivity].
  slots IH0 IH1 IH2 IH3.
Qed.

(** Every reached leaf is a leaf of the tree. *)
Lemma reached_leaves_incl (b : branch) (l : leaf) :
  In l (reached_leaves this b) -> In l (all_leaves b).
Proof.
  induction b as [bd b0 b1 b2 b3 [l0 l1 l2 l3] IH0 IH1 IH2 IH3]
    using branch_ind'.
  simpl. destruct (PointIsInsideSquare this bd); [|intros []].
  repeat rewrite in_app_iff.
  destruct b0, b1, b2, b3; simpl in *; tauto.
Qed.

(** Outside the square of a branch nothing below it is reached. *)
Lemma reached_leaves_outside (b : branch) :
  PointIsInsideSquare this (bounds b) = false -> reached_leaves this b = [].
Proof.
  destruct b as [bd [b0 b1 b2 b3] [l0 l1 l2 l3]]. simpl.
  intros ->. reflexivity.
Qed.

(** Once the scan has started it holds a node. *)
Lemma scan_keeps_node (ns : list Node) (s : scan) :
  itStarted s = true -> currClosest s <> None ->
  currClosest (fold_left (scan_step this) ns s) <> None.
Proof.
  revert s. induction ns as [|n ns IH]; simpl; [tauto|].
  intros s Hst Hcl. apply IH; unfold scan_step; rewrite Hst; simpl;
    destruct (Qltb _ _); simpl;
    first [reflexivity | discriminate | assumption].
Qed.

End Descent.

(** ** Click search: results *)
Section ClickSearchResults.
Import adcData QuadtreeData ClickSearch.

(** The leaf scan returns null exactly when it is outside the leaf or the
    leaf holds no node. *)
Lemma SearchNodes_leaf_None (this : ClickSearch) (l : leaf) :
  SearchNodes_leaf this l = None <->
  PointIsInsideSquare this (leaf_bounds l) = false \/ nodes l = [].
Proof.
  unfold SearchNodes_leaf.
  destruct (PointIsInsideSquare this (leaf_bounds l)); [|tauto].
  destruct (nodes l) as [|n ns] eqn:E.
  - simpl. tauto.
  - split; [|intros [H|H]; discriminate].
    intros H. exfalso. simpl in H.
    revert H. apply scan_keeps_node; [reflexivity | simpl; discriminate].
Qed.

Lemma find_app {A : Type} (P : A -> bool) (l1 l2 : list A) :
  find P (l1 ++ l2)
  = match find P l1 with Some a => Some a | None => find P l2 end.
Proof.
  induction l1 as [|a l1 IH]; simpl; [reflexivity|].
  destruct (P a); [reflexivity | exact IH].
Qed.

(** What the scan computes once it has started: the record stays the
    distance of the first node, and the node kept is the last one that is
    closer than that record. *)
Lemma scan_stale_record (this : ClickSearch) (ns : list Node)
  (c : Node) (r : Q) :
  fold_left (scan_step this) ns
    {| itStarted := true; currClosest := Some c; recordDistance := r |}
  = {| itStarted := true;
       currClosest :=
         Some match find (fun m => Qltb (DistanceSq this m) r) (rev ns) with
              | Some m => m
              | None => c
              end;
       recordDistance := r |}.
Proof.
  revert c. induction ns as [|m ns IH]; intros c; [reflexivity|].
  simpl. rewrite find_app. unfold scan_step at 2. simpl.
  destruct (Qltb (DistanceSq this m) r) eqn:E; rewrite IH;
    destruct (find _ (rev ns)); reflexivity.
Qed.

(** The result of the node search in a non-empty leaf around the point. *)
Lemma SearchNodes_leaf_scan (this : ClickSearch) (l : leaf)
  (n : Node) (ns : list Node) :
  PointIsInsideSquare this (leaf_bounds l) = true ->
  nodes l = n :: ns ->
  SearchNodes_leaf this l
  = Some match find (fun m => Qltb (DistanceSq this m) (DistanceSq this n))
                    (rev ns) with
         | Some m => m
         | None => n
         end.
Proof.
  intros Hin Hns. unfold SearchNodes_leaf. rewrite Hin, Hns. simpl.
  change (scan_step this scan_init n)
    with {| itStarted := true; currClosest := Some n;
            recordDistance := DistanceSq this n |}.
  rewrite scan_stale_record. reflexivity.
Qed.

(** The node returned for a leaf is one of its nodes, and the point is
    inside the leaf. *)
Lemma SearchNodes_leaf_In (this : ClickSearch) (l : leaf) (n : Node) :
  SearchNodes_leaf this l = Some n ->
  In n (nodes l) /\ PointIsInsideSquare this (leaf_bounds l) = true.
Proof.
  destruct (PointIsInsideSquare this (leaf_bounds l)) eqn:Hin;
    [|unfold SearchNodes_leaf; rewrite Hin; discriminate].
  destruct (nodes l) as [|n0 ns] eqn:Hns;
    [unfold SearchNodes_leaf; rewrite Hin, Hns; discriminate|].
  rewrite (SearchNodes_leaf_scan this l n0 ns Hin Hns).
  intros H. injection H as <-. split; [|reflexivity].
  destruct (find _ (rev ns)) as [m|] eqn:F; [|now left].
  right. apply in_rev. exact (proj1 (find_some _ _ F)).
Qed.

(** A leaf result of the element search passes the test, is stored in the
    leaf, and the point is inside the leaf. *)
Lemma SearchElements_leaf_Some (this : ClickSearch) (l : leaf) (E : Element) :
  SearchElements_leaf this l = Some E ->
  PointIsInsideElement this E = true /\ In E (elements l) /\
  PointIsInsideSquare this (leaf_bounds l) = true.
Proof.
  unfold SearchElements_leaf.
  destruct (PointIsInsideSquare this (leaf_bounds l)); [|discriminate].
  intros H. destruct (find_some _ _ H) as [Hin Ht]. auto.
Qed.

Lemma SearchElements_leaf_None (this : ClickSearch) (l : leaf) :
  SearchElements_leaf this l = None <->
  (PointIsInsideSquare this (leaf_bounds l) = true ->
   forall E, In E (elements l) -> PointIsInsideElement this E = false).
Proof.
  unfold SearchElements_leaf.
  destruct (PointIsInsideSquare this (leaf_bounds l)).
  - split.
    + intros H _ E Hin. exact (find_none _ _ H E Hin).
    + intros H. specialize (H eq_refl).
      destruct (find _ _) as [E|] eqn:F; [|reflexivity].
      destruct (find_some _ _ F) as [Hin Ht].
      rewrite (H E Hin) in Ht. discriminate.
  - split; [discriminate | reflexivity].
Qed.

(** C1, evaluated on the code.  The claim: for a point inside a non-empty
    leaf the nearest-node query returns a node of that leaf at minimal
    Euclidean distance, and at the exact coordinates of a stored node it
    returns that node.  On the leaf holding A = (3/4, 1/4), B = (1/4, 1/4)
    and C = (1/2, 1/4), the query at (1/4, 1/4), the position of B, returns
    C: the loop compares every later node with the distance of the first
    node, which it never lowers, so the last node closer than the first
    one wins. *)
Theorem SearchNodes_returns_farther_node :
  let q := {| x := 1#4; y := 1#4 |} in
  fst (FindNode new Examples.root (1#4) (1#4)) = Some Examples.nodeC /\
  In Examples.top_right (all_leaves Examples.root) /\
  PointIsInsideSquare q (leaf_bounds Examples.top_right) = true /\
  In Examples.nodeB (nodes Examples.top_right) /\
  normX Examples.nodeB = 1#4 /\ normY Examples.nodeB = 1#4 /\
  DistanceSq q Examples.nodeB < DistanceSq q Examples.nodeC /\
  ~ nearest_in q (nodes Examples.top_right) Examples.nodeC.
Proof.
  cbv zeta.
  assert (Hlt : DistanceSq {| x := 1#4; y := 1#4 |} Examples.nodeB
                < DistanceSq {| x := 1#4; y := 1#4 |} Examples.nodeC)
    by (apply Qltb_lt; vm_compute; reflexivity).
  repeat split; try (vm_compute; reflexivity); try assumption.
  - simpl. tauto.
  - simpl. tauto.
  - intros [_ Hmin].
    specialize (Hmin Examples.nodeB (or_intror (or_introl eq_refl))).
    exact (Qlt_not_le _ _ Hlt Hmin).
Qed.

(** C2, evaluated on the code.  The claim: the point-in-element test is
    true exactly when the three barycentric weights of the standard solve
    are strictly positive.  The second weight of the code subtracts the x
    coordinate of the third vertex from y.  For the triangle (0,1), (0,0),
    (1,0) the interior point (1/4, 1/4) is rejected (the code's weights are
    1/4, 3/2, -3/4 instead of 1/4, 1/2, 1/4), and the exterior point
    (5/4, 1/4) is accepted. *)
Theorem PointIsInsideElement_differs_from_barycentric :
  signed_area2 Examples.corner1 Examples.corner2 Examples.corner3 == 1 /\
  PointIsInsideElement {| x := 1#4; y := 1#4 |} Examples.triangle = false /\
  barycentric_inside (1#4) (1#4)
    Examples.corner1 Examples.corner2 Examples.corner3 = true /\
  PointIsInsideElement {| x := 5#4; y := 1#4 |} Examples.triangle = true /\
  barycentric_inside (5#4) (1#4)
    Examples.corner1 Examples.corner2 Examples.corner3 = false.
Proof. repeat split; vm_compute; reflexivity. Qed.

(** C3.  The click search is a total function: every query returns a node
    (or element) or null, and nothing else.  It returns null for both
    queries when the point is outside the bounds of the root, and the node
    query returns null when every leaf the descent reaches around the
    point holds no node. *)
Theorem click_search_null_results
  (this : ClickSearch) (root : branch) (px py : Q) :
  let q := {| x := px; y := py |} in
  (PointIsInsideSquare q (bounds root) = false ->
   fst (FindNode this root px py) = None /\
   fst (FindElement this root px py) = None) /\
  ((forall l, In l (reached_leaves q root) ->
              PointIsInsideSquare q (leaf_bounds l) = true ->
              nodes l = []) ->
   fst (FindNode this root px py) = None).
Proof.
  cbv zeta. unfold FindNode, FindElement. simpl. split.
  - intros Hout.
    rewrite SearchNodes_branch_reached, SearchElements_branch_reached.
    rewrite (reached_leaves_outside _ _ Hout). split; reflexivity.
  - intros Hempty. rewrite SearchNodes_branch_reached.
    apply first_some_None. intros l Hin.
    apply SearchNodes_leaf_None.
    destruct (PointIsInsideSquare _ (leaf_bounds l)) eqn:E;
      [right; now apply Hempty | now left].
Qed.

Lemma click_search_null_results_witness :
  (fst (FindNode new Examples.root 2 2) = None /\
   fst (FindElement new Examples.root 2 2) = None) /\
  fst (FindNode new Examples.root (-1#2) (-1#2)) = None.
Proof.
  split.
  - apply (click_search_null_results new Examples.root 2 2).
    vm_compute. reflexivity.
  - apply (click_search_null_results new Examples.root (-1#2) (-1#2)).
    intros l Hin Hinside. vm_compute in Hin.
    repeat (destruct Hin as [<-|Hin]; [ first [ reflexivity | discriminate Hinside ] |]).
    destruct Hin.
Defined.

(** C5.  A non-null result E of FindElement passes the point-in-element
    test for the click point and is stored in a leaf of the tree whose
    bounds contain the point.  The result is null otherwise: exactly when
    no element of a reached leaf around the point passes the test. *)
Theorem FindElement_sound
  (this : ClickSearch) (root : branch) (px py : Q) :
  let q := {| x := px; y := py |} in
  (forall E, fst (FindElement this root px py) = Some E ->
     PointIsInsideElement q E = true /\
     exists l, In l (all_leaves root) /\ In E (elements l) /\
               PointIsInsideSquare q (leaf_bounds l) = true) /\
  (fst (FindElement this root px py) = None <->
   forall l E, In l (reached_leaves q root) ->
               PointIsInsideSquare q (leaf_bounds l) = true ->
               In E (elements l) -> PointIsInsideElement q E = false).
Proof.
  cbv zeta. unfold FindElement. simpl.
  rewrite SearchElements_branch_reached. split.
  - intros E H.
    destruct (first_some_Some _ _ _ H) as [l [Hin Hl]].
    destruct (SearchElements_leaf_Some _ _ _ Hl) as [Ht [HE Hsq]].
    split; [assumption|]. exists l.
    split; [now apply reached_leaves_incl in Hin | auto].
  - rewrite first_some_None. split.
    + intros H l E Hin Hsq HE.
      exact (proj1 (SearchElements_leaf_None _ _) (H l Hin) Hsq E HE).
    + intros H l Hin. apply SearchElements_leaf_None.
      intros Hsq E HE. now apply (H l E).
Qed.

Lemma FindElement_sound_witness :
  PointIsInsideElement {| x := 1#8; y := 1#8 |} Examples.triangle' = true /\
  exists l, In l (all_leaves Examples.root_with_triangle') /\
            In Examples.triangle' (elements l) /\
            PointIsInsideSquare {| x := 1#8; y := 1#8 |} (leaf_bounds l)
            = true.
Proof.
  apply (proj1 (FindElement_sound new Examples.root_with_triangle'
                  (1#8) (1#8)) Examples.triangle').
  vm_compute. reflexivity.
Defined.

End ClickSearchResults.

(** ** Edge keys *)
Section EdgeKeys.
Import BoundaryFinder.
Local Open Scope N_scope.

Ltac edge_cases :=
  unfold same_key, Edge_eq, Edge_lt, Edge_of, same_pair;
  repeat match goal with
         | |- context [?a <? ?b] => destruct (N.ltb_spec a b); simpl
         | |- context [?a =? ?b] => destruct (N.eqb_spec a b); simpl
         end.

(** C4.  [Edge(a, b)] stores the smaller ID in [n1] and the larger in
    [n2]; [Edge(a, b) == Edge(b, a)]; two constructed edges are equal
    under [operator==] exactly when their unordered pairs of IDs coincide;
    and exactly then neither is less than the other under [operator<], so
    both are one key of an ordered map. *)
Theorem Edge_canonical (a b : N) :
  n1 (Edge_of a b) = N.min a b /\
  n2 (Edge_of a b) = N.max a b /\
  Edge_eq (Edge_of a b) (Edge_of b a) = true /\
  same_key (Edge_of a b) (Edge_of b a) = true /\
  (forall c d, Edge_eq (Edge_of a b) (Edge_of c d) = true
               <-> same_pair a b c d) /\
  (forall c d, same_key (Edge_of a b) (Edge_of c d) = true
               <-> same_pair a b c d).
Proof.
  repeat split; try (intros c d; split); edge_cases;
    try reflexivity; try discriminate; try lia;
    try (intros [[? ?]|[? ?]]; lia);
    try (intros _; lia).
Qed.

End EdgeKeys.

(** ** The creation selection layer *)
Section SelectionLayer.
Import CreationSelectionLayer.
Local Open Scope Z_scope.

(** *** Mouse events *)

Lemma run_app (s : Layer) (pre post : list MouseEvent) :
  run s (pre ++ post) = run (run s pre) post.
Proof. unfold run. apply fold_left_app. Qed.

Lemma handle_tool_active (s : Layer) (e : MouseEvent) :
  tool_active s -> tool_active (handle s e).
Proof.
  unfold tool_active. intros [Ha Hc].
  destruct (circleTool s) as [t|] eqn:Ht; [clear Hc|contradiction].
  destruct e; simpl; unfold MouseMove, tell_tool;
    try destruct (mousePressed s); simpl;
    rewrite ?Ht, ?Ha; simpl;
    (split; [reflexivity | discriminate]).
Qed.

Lemma run_tool_active (evs : list MouseEvent) (s : Layer) :
  tool_active s -> tool_active (run s evs).
Proof.
  revert s. induction evs as [|e evs IH]; intros s H; [assumption|].
  apply IH. now apply handle_tool_active.
Qed.

(** The flag after a run is the computed reading of the history. *)
Lemma mousePressed_run (evs : list MouseEvent) (s : Layer) :
  mousePressed (run s evs) = pressed_after (mousePressed s) evs.
Proof.
  unfold run. revert s.
  induction evs as [|e evs IH]; intros s; [reflexivity|].
  simpl. rewrite IH. f_equal.
  destruct e; simpl; try reflexivity.
  unfold MouseMove. destruct (mousePressed s) eqn:E; simpl; congruence.
Qed.

Lemma button_held_cons (e : MouseEvent) (evs : list MouseEvent) :
  button_held (e :: evs) <->
  button_held evs \/
  (is_click e = true /\ forallb (fun e => negb (is_release e)) evs = true).
Proof.
  unfold button_held. split.
  - intros [before [x [y [after [Heq Hall]]]]].
    destruct before as [|e' before]; simpl in Heq; injection Heq as -> ->.
    + right. split; [reflexivity | assumption].
    + left. exists before, x, y, after. split; [reflexivity | assumption].
  - intros [[before [x [y [after [-> Hall]]]]] | [Hc Hall]].
    + exists (e :: before), x, y, after. split; [reflexivity | assumption].
    + destruct e as [x y| |]; try discriminate.
      exists [], x, y, evs. split; [reflexivity | assumption].
Qed.

(** The computed reading agrees with the history: down exactly when a
    click without a later release is in the history, or the button was
    down at the start and no release came. *)
Lemma pressed_after_held (evs : list MouseEvent) (down : bool) :
  pressed_after down evs = true <->
  button_held evs \/
  (down = true /\ forallb (fun e => negb (is_release e)) evs = true).
Proof.
  revert down. induction evs as [|e evs IH]; intros down; simpl.
  - split.
    + intros ->. right. split; reflexivity.
    + intros [[before [x [y [after [Heq _]]]]] | [-> _]]; [|reflexivity].
      destruct before; discriminate.
  - rewrite IH, button_held_cons.
    destruct e as [x y|x y|x y]; simpl; intuition congruence.
Qed.

(** C7.  From a layer with the button up and the circle tool active, at
    any event [e] of any event sequence [pre ++ e :: post]: the flag
    [mousePressed] is set exactly when the history [pre] ends strictly
    between a click and the following release; a click sends the centre
    to the tool; a move sends a radius point when the button is held and
    sends nothing otherwise; a release sends the one [CircleFinished]
    call that ends the circle. *)
Theorem mouse_protocol
  (s : Layer) (pre post : list MouseEvent) (e : MouseEvent) :
  mousePressed s = false ->
  tool_active s ->
  let before := run s pre in
  let after := handle before e in
  (mousePressed before = true <-> button_held pre) /\
  run s (pre ++ e :: post) = run after post /\
  match e with
  | Click x y =>
      tool_calls after = tool_calls before ++ [SetCenter x y] /\
      mousePressed after = true
  | Move x y =>
      (button_held pre ->
       tool_calls after = tool_calls before ++ [SetRadiusPoint x y]) /\
      (~ button_held pre -> tool_calls after = tool_calls before) /\
      mousePressed after = mousePressed before
  | Release x y =>
      tool_calls after = tool_calls before ++ [CircleFinished] /\
      mousePressed after = false
  end.
Proof.
  intros Hup Hact. cbv zeta.
  assert (Hheld : mousePressed (run s pre) = true <-> button_held pre).
  { rewrite mousePressed_run, Hup, pressed_after_held.
    split; [intros [H|[H _]]; [assumption | discriminate] | tauto]. }
  split; [exact Hheld|].
  split; [rewrite run_app; reflexivity|].
  destruct (run_tool_active pre s Hact) as [Ha Hc].
  destruct (circleTool (run s pre)) as [t|] eqn:Ht; [clear Hc|contradiction].
  destruct e as [x y|x y|x y]; simpl.
  - unfold tool_calls, tell_tool. simpl. unfold tell_tool.
    rewrite Ht, Ha. simpl. split; reflexivity.
  - unfold MouseMove. destruct (mousePressed (run s pre)) eqn:Hp.
    + unfold tool_calls. simpl. unfold tell_tool. rewrite Ht, Ha. simpl.
      split; [reflexivity|]. split; [|first [reflexivity | exact Hp]].
      intros Hn. exfalso. apply Hn. now apply Hheld.
    + split; [|split; first [reflexivity | exact Hp]].
      intros Hh. apply Hheld in Hh. discriminate.
  - unfold tool_calls, tell_tool. simpl. unfold tell_tool.
    rewrite Ht, Ha. simpl. split; reflexivity.
Qed.

Lemma mouse_protocol_witness :
  button_held [Click 1 2] /\
  tool_calls (run new [Click 1 2; Move 3 4])
  = tool_calls (run new [Click 1 2]) ++ [SetRadiusPoint 3 4].
Proof.
  assert (Hup : mousePressed new = false) by reflexivity.
  assert (Hact : tool_active new) by (split; [reflexivity | discriminate]).
  pose proof (mouse_protocol new [Click 1 2] [Release 3 4] (Move 3 4)
                Hup Hact) as H.
  cbv beta iota zeta in H. destruct H as [Hheld [_ [Hmove _]]].
  assert (Hb : button_held [Click 1 2]) by (apply Hheld; reflexivity).
  split; [exact Hb | exact (Hmove Hb)].
Defined.

(** *** Undo and redo *)

(** C8.  With a non-null [selectedState] and a non-empty undo stack, Undo
    moves the current state to the redo stack and makes the top of the
    undo stack current, and Redo after it moves it back: [selectedState],
    the undo stack and the redo stack, and with them the whole modelled
    layer, are as before the Undo. *)
Theorem Undo_Redo_restores (s : Layer) :
  selectedState s <> None ->
  undoStack s <> [] ->
  (exists current top rest,
     selectedState s = Some current /\ undoStack s = top :: rest /\
     selectedState (Undo s) = Some top /\
     undoStack (Undo s) = rest /\
     redoStack (Undo s) = current :: redoStack s) /\
  selectedState (Redo (Undo s)) = selectedState s /\
  undoStack (Redo (Undo s)) = undoStack s /\
  redoStack (Redo (Undo s)) = redoStack s /\
  Redo (Undo s) = s.
Proof.
  destruct s as [a c sel undo redo m]. simpl.
  intros Hsel Hundo.
  destruct sel as [current|]; [|contradiction].
  destruct undo as [|top rest]; [contradiction|].
  split; [exists current, top, rest|]; repeat split; reflexivity.
Qed.

Lemma Undo_Redo_restores_witness :
  selectedState (Redo (Undo Examples.selected_once)) = selectedState Examples.selected_once /\
  undoStack (Redo (Undo Examples.selected_once)) = undoStack Examples.selected_once /\
  redoStack (Redo (Undo Examples.selected_once)) = redoStack Examples.selected_once.
Proof.
  destruct (Undo_Redo_restores Examples.selected_once) as [_ [H1 [H2 [H3 _]]]].
  - vm_compute. discriminate.
  - vm_compute. discriminate.
  - split; [exact H1 | split; [exact H2 | exact H3]].
Defined.

(** *** Sorting and removing duplicates *)

Lemma In_insert_sorted (p x : ElementPtr) (l : list ElementPtr) :
  In x (insert_sorted p l) <-> x = p \/ In x l.
Proof.
  induction l as [|q l IH]; simpl.
  - intuition.
  - destruct (p <=? q); simpl; [|rewrite IH]; intuition.
Qed.

Lemma In_sort (x : ElementPtr) (l : list ElementPtr) :
  In x (sort l) <-> In x l.
Proof.
  induction l as [|p l IH]; simpl; [tauto|].
  rewrite In_insert_sorted, IH. intuition.
Qed.

Lemma insert_sorted_sorted (p : ElementPtr) (l : list ElementPtr) :
  StronglySorted Z.le l -> StronglySorted Z.le (insert_sorted p l).
Proof.
  induction 1 as [|q l Hs IH Hall]; simpl.
  - constructor; constructor.
  - destruct (Z.leb_spec p q).
    + constructor; [constructor; assumption|].
      constructor; [assumption|].
      eapply Forall_impl; [|exact Hall]. intros r Hr. simpl in Hr. lia.
    + constructor; [assumption|].
      apply Forall_forall. intros r Hr.
      apply In_insert_sorted in Hr. destruct Hr as [->|Hr]; [lia|].
      rewrite Forall_forall in Hall. now apply Hall.
Qed.

Lemma sort_sorted (l : list ElementPtr) : StronglySorted Z.le (sort l).
Proof.
  induction l as [|p l IH]; simpl;
    [constructor | now apply insert_sorted_sorted].
Qed.

Lemma unique_cons2 (p q : ElementPtr) (l : list ElementPtr) :
  unique (p :: q :: l)
  = if p =? q then unique (q :: l) else p :: unique (q :: l).
Proof. reflexivity. Qed.

Lemma In_unique (x : ElementPtr) (l : list ElementPtr) :
  In x (unique l) <-> In x l.
Proof.
  induction l as [|p l IH]; [tauto|].
  destruct l as [|q l]; [simpl; tauto|].
  rewrite unique_cons2. destruct (Z.eqb_spec p q) as [->|Hne].
  - rewrite IH. simpl. tauto.
  - change (In x (p :: unique (q :: l))) with (p = x \/ In x (unique (q :: l))).
    rewrite IH. simpl. tauto.
Qed.

Lemma unique_NoDup (l : list ElementPtr) :
  StronglySorted Z.le l -> NoDup (unique l).
Proof.
  induction 1 as [|p l Hs IH Hall]; [constructor|].
  destruct l as [|q l]; [simpl; constructor; [intros []|constructor]|].
  rewrite unique_cons2. destruct (Z.eqb_spec p q) as [->|Hne];
    [assumption|].
  constructor; [|assumption].
  rewrite In_unique. intros Hin.
  inversion Hs as [|q' l' Hs' Hall' Heq]; subst.
  inversion Hall as [|q' l' Hpq Hrest]; subst.
  destruct Hin as [<-|Hin]; [congruence|].
  rewrite Forall_forall in Hall'. specialize (Hall' p Hin). lia.
Qed.

End SelectionLayer.

(** *** The circle-tool slot *)
Section CircleToolResults.
Import CreationSelectionLayer.
Local Open Scope Z_scope.

Variable GetSelectedElements : CircleTool -> list ElementPtr.

(** C9.  When the finished search of the circle tool yields no element,
    [CircleToolFinishedSearching] leaves the currently selected elements,
    the undo stack and the redo stack as they are. *)
Theorem CircleToolFinishedSearching_nothing_found (s : Layer) :
  (forall tool, circleTool s = Some tool -> GetSelectedElements tool = []) ->
  let s' := CircleToolFinishedSearching GetSelectedElements s in
  current_selection s' = current_selection s /\
  undoStack s' = undoStack s /\
  redoStack s' = redoStack s.
Proof.
  intros Hnone. cbv zeta. unfold CircleToolFinishedSearching, current_selection.
  destruct (circleTool s) as [tool|].
  - rewrite (Hnone tool eq_refl). simpl.
    destruct (selectedState s); repeat split; reflexivity.
  - simpl. destruct (selectedState s); repeat split; reflexivity.
Qed.

(** C10.  When the current selection and the result of the circle search
    are both non-empty, the selection after [CircleToolFinishedSearching]
    holds every element at most once, holds exactly the elements of the
    previous selection and of the search result, and the previous state is
    pushed as it was onto the undo stack. *)
Theorem CircleToolFinishedSearching_merge (s : Layer) (tool : CircleTool) :
  circleTool s = Some tool ->
  GetSelectedElements tool <> [] ->
  current_selection s <> [] ->
  let s' := CircleToolFinishedSearching GetSelectedElements s in
  NoDup (current_selection s') /\
  (forall e, In e (current_selection s') <->
             In e (current_selection s) \/ In e (GetSelectedElements tool)) /\
  (exists previous,
     selectedState s = Some previous /\
     undoStack s' = previous :: undoStack s).
Proof.
  intros Htool Hfound Hsel. cbv zeta.
  unfold CircleToolFinishedSearching, current_selection in *.
  rewrite Htool.
  destruct (selectedState s) as [previous|]; [|contradiction].
  destruct (GetSelectedElements tool) as [|f found] eqn:Ef; [contradiction|].
  destruct (GetState previous) as [|c curr] eqn:Ec; [contradiction|].
  cbn [length Nat.ltb Nat.leb selectedState undoStack GetState].
  split; [|split].
  - apply unique_NoDup, sort_sorted.
  - intros e. rewrite In_unique, In_sort, in_app_iff. tauto.
  - exists previous. split; reflexivity.
Qed.

End CircleToolResults.

Lemma CircleToolFinishedSearching_nothing_found_witness :
  let s' := CreationSelectionLayer.CircleToolFinishedSearching
              (fun _ => []) Examples.selected_once in
  CreationSelectionLayer.current_selection s'
  = CreationSelectionLayer.current_selection Examples.selected_once /\
  CreationSelectionLayer.undoStack s'
  = CreationSelectionLayer.undoStack Examples.selected_once /\
  CreationSelectionLayer.redoStack s'
  = CreationSelectionLayer.redoStack Examples.selected_once.
Proof.
  apply (CircleToolFinishedSearching_nothing_found
           (fun _ => []) Examples.selected_once).
  intros tool _. reflexivity.
Defined.

Lemma CircleToolFinishedSearching_merge_witness :
  let s' := CreationSelectionLayer.CircleToolFinishedSearching
              (fun _ => [5; 2; 5]%Z) Examples.selected_once in
  NoDup (CreationSelectionLayer.current_selection s') /\
  (forall e, In e (CreationSelectionLayer.current_selection s') <->
             In e (CreationSelectionLayer.current_selection
                     Examples.selected_once) \/
             In e [5; 2; 5]%Z) /\
  (exists previous,
     CreationSelectionLayer.selectedState Examples.selected_once
     = Some previous /\
     CreationSelectionLayer.undoStack s'
     = previous :: CreationSelectionLayer.undoStack Examples.selected_once).
Proof.
  apply (CircleToolFinishedSearching_merge
           (fun _ => [5; 2; 5]%Z) Examples.selected_once
           CreationSelectionLayer.CircleTool_new).
  - reflexivity.
  - discriminate.
  - vm_compute. discriminate.
Defined.

(** * Further properties of the code *)

(** ** The order of Edge keys *)
Section EdgeOrder.
Import BoundaryFinder.
Local Open Scope N_scope.

Lemma Edge_eq_true (e e1 : Edge) : Edge_eq e e1 = true <-> e = e1.
Proof.
  destruct e as [a b], e1 as [c d]. unfold Edge_eq. simpl.
  rewrite andb_true_iff, !N.eqb_eq. split.
  - intros [-> ->]. reflexivity.
  - intros H. injection H as -> ->. split; reflexivity.
Qed.

(** [operator<] is a strict total order on edges that agrees with
    [operator==]: no edge is less than itself, the relation is transitive,
    and of two edges exactly one of "less", "equal", "greater" holds;
    [operator==] holds exactly for edges with the same two members. *)
Theorem Edge_lt_strict_total_order (e1 e2 e3 : Edge) :
  Edge_lt e1 e1 = false /\
  (Edge_lt e1 e2 = true -> Edge_lt e2 e3 = true -> Edge_lt e1 e3 = true) /\
  ((Edge_lt e1 e2 = true /\ Edge_eq e1 e2 = false /\ Edge_lt e2 e1 = false) \/
   (Edge_lt e1 e2 = false /\ Edge_eq e1 e2 = true /\ Edge_lt e2 e1 = false) \/
   (Edge_lt e1 e2 = false /\ Edge_eq e1 e2 = false /\ Edge_lt e2 e1 = true)) /\
  (Edge_eq e1 e2 = true <-> e1 = e2).
Proof.
  split; [|split; [|split; [|apply Edge_eq_true]]];
    destruct e1 as [a b], e2 as [c d], e3 as [f g];
    unfold Edge_lt, Edge_eq; simpl;
    repeat match goal with
           | |- context [?u <? ?v] => destruct (N.ltb_spec u v); simpl
           | |- context [?u =? ?v] => destruct (N.eqb_spec u v); simpl
           end;
    try reflexivity; try discriminate; try lia;
    try (intros; lia); try (intros; discriminate);
    try (left; repeat split; reflexivity);
    try (right; left; repeat split; reflexivity);
    try (right; right; repeat split; reflexivity).
Qed.

Lemma Edge_lt_strict_total_order_witness :
  Edge_lt (Edge_of 1 2) (Edge_of 7 3) = true.
Proof.
  apply (Edge_lt_strict_total_order (Edge_of 1 2) (Edge_of 3 2) (Edge_of 7 3));
    reflexivity.
Defined.

End EdgeOrder.

(** ** More on the click search *)
Section ClickSearchMore.
Import adcData QuadtreeData ClickSearch.

Lemma Qltb_ge (a b : Q) : Qltb a b = false <-> b <= a.
Proof. unfold Qltb. rewrite negb_false_iff. apply Qle_bool_iff. Qed.

(** A non-null result of [FindNode] is a node stored in a leaf of the tree
    whose bounds contain the point, and the bounds of the root contain the
    point.  (Which node of the leaf is returned depends on the computed
    distances; that it is one of the leaf does not.) *)
Theorem FindNode_sound
  (this : ClickSearch) (root : branch) (px py : Q) (n : Node) :
  fst (FindNode this root px py) = Some n ->
  let q := {| x := px; y := py |} in
  PointIsInsideSquare q (bounds root) = true /\
  exists l,
    In l (all_leaves root) /\
    PointIsInsideSquare q (leaf_bounds l) = true /\
    In n (nodes l).
Proof.
  unfold FindNode. simpl. rewrite SearchNodes_branch_reached.
  intros H. destruct (first_some_Some _ _ _ H) as [l [Hreach Hl]].
  destruct (SearchNodes_leaf_In _ _ _ Hl) as [Hn Hin].
  split.
  - destruct (PointIsInsideSquare _ (bounds root)) eqn:E; [reflexivity|].
    rewrite (reached_leaves_outside _ _ E) in Hreach. destruct Hreach.
  - exists l. repeat split; try assumption.
    now apply reached_leaves_incl in Hreach.
Qed.

Lemma FindNode_sound_witness :
  let q := {| x := 1#4; y := 1#4 |} in
  PointIsInsideSquare q (bounds Examples.root) = true /\
  exists l,
    In l (all_leaves Examples.root) /\
    PointIsInsideSquare q (leaf_bounds l) = true /\
    In Examples.nodeC (nodes l).
Proof.
  apply (FindNode_sound new Examples.root (1#4) (1#4) Examples.nodeC).
  vm_compute. reflexivity.
Defined.

(** [FindNode] returns a node exactly when some leaf that the descent
    reaches holds a node and has the point inside its bounds. *)
Theorem FindNode_finds_when_present
  (this : ClickSearch) (root : branch) (px py : Q) :
  let q := {| x := px; y := py |} in
  (exists n, fst (FindNode this root px py) = Some n) <->
  (exists l, In l (reached_leaves q root) /\
             PointIsInsideSquare q (leaf_bounds l) = true /\
             nodes l <> []).
Proof.
  cbv zeta. unfold FindNode. simpl. rewrite SearchNodes_branch_reached.
  split.
  - intros [n H]. destruct (first_some_Some _ _ _ H) as [l [Hreach Hl]].
    destruct (SearchNodes_leaf_In _ _ _ Hl) as [Hn Hin].
    exists l. repeat split; try assumption.
    intros E. rewrite E in Hn. destruct Hn.
  - intros [l [Hreach [Hin Hne]]].
    destruct (first_some _ _) as [n|] eqn:F; [now exists n|].
    exfalso. rewrite first_some_None in F. specialize (F l Hreach).
    apply SearchNodes_leaf_None in F. destruct F; congruence.
Qed.

End ClickSearchMore.

(** ** More on the creation selection layer *)
Section SelectionLayerMore.
Import CreationSelectionLayer.
Local Open Scope Z_scope.

(** *** Undo and redo *)

(** Undo and Redo only move the position in the history: the sequence of
    states from the bottom of the undo stack over the current state to the
    bottom of the redo stack is the same after either, in every state of
    the layer. *)
Theorem Undo_Redo_keep_timeline (s : Layer) :
  timeline (Undo s) = timeline s /\ timeline (Redo s) = timeline s.
Proof.
  destruct s as [a c sel undo redo m]. unfold timeline, Undo, Redo. simpl.
  split.
  - destruct undo as [|top rest]; [reflexivity|].
    destruct sel as [cur|]; [|reflexivity].
    simpl. rewrite <- !app_assoc. reflexivity.
  - destruct redo as [|top rest]; [reflexivity|].
    destruct sel as [cur|]; [|reflexivity].
    simpl. rewrite <- !app_assoc. reflexivity.
Qed.

(** With a non-null [selectedState] and a non-empty redo stack, Redo
    followed by Undo gives back the layer as it was. *)
Theorem Redo_Undo_restores (s : Layer) :
  selectedState s <> None ->
  redoStack s <> [] ->
  Undo (Redo s) = s.
Proof.
  destruct s as [a c sel undo redo m]. simpl. intros Hsel Hredo.
  destruct sel as [cur|]; [|contradiction].
  destruct redo as [|top rest]; [contradiction|]. reflexivity.
Qed.

Lemma Redo_Undo_restores_witness :
  Undo (Redo (Undo Examples.selected_once)) = Undo Examples.selected_once.
Proof.
  apply (Redo_Undo_restores (Undo Examples.selected_once));
    vm_compute; discriminate.
Defined.

(** *** Mouse events *)

Lemma tool_calls_click (x y : Z) (s : Layer) :
  tool_active s ->
  tool_calls (MouseClick x y s) = tool_calls s ++ [SetCenter x y] /\
  tool_active (MouseClick x y s) /\ mousePressed (MouseClick x y s) = true.
Proof.
  intros Hact. split; [|split; [exact (handle_tool_active s (Click x y) Hact)
                               | reflexivity]].
  destruct Hact as [Ha Hc]. unfold tool_calls. simpl. unfold tell_tool.
  destruct (circleTool s); [|contradiction]. rewrite Ha. reflexivity.
Qed.

Lemma tool_calls_moves (ps : list (Z * Z)) (s : Layer) :
  tool_active s -> mousePressed s = true ->
  tool_calls (run s (map move_event ps))
  = tool_calls s ++ map move_call ps /\
  tool_active (run s (map move_event ps)) /\
  mousePressed (run s (map move_event ps)) = true.
Proof.
  unfold run. revert s. induction ps as [|p ps IH]; intros s Hact Hp; simpl.
  - rewrite app_nil_r. auto.
  - assert (Hact' : tool_active (MouseMove (fst p) (snd p) s))
      by exact (handle_tool_active s (Move (fst p) (snd p)) Hact).
    assert (Hp' : mousePressed (MouseMove (fst p) (snd p) s) = true)
      by (unfold MouseMove; rewrite Hp; reflexivity).
    destruct (IH _ Hact' Hp') as [H1 [H2 H3]].
    rewrite H1. split; [|auto].
    replace (tool_calls (MouseMove (fst p) (snd p) s))
      with (tool_calls s ++ [move_call p]).
    + rewrite <- app_assoc. reflexivity.
    + destruct Hact as [Ha Hc]. unfold MouseMove. rewrite Hp.
      unfold tool_calls. simpl. unfold tell_tool.
      destruct (circleTool s); [|contradiction]. rewrite Ha. reflexivity.
Qed.

(** A whole drag with the circle tool active: a click, any number of
    moves and a release send the tool the centre, every radius point in
    order and then one [CircleFinished], and nothing else; the button flag
    is cleared at the end. *)
Theorem drag_gesture
  (s : Layer) (x y x' y' : Z) (ps : list (Z * Z)) :
  tool_active s ->
  let s' := run s (Click x y :: map move_event ps ++ [Release x' y']) in
  tool_calls s'
  = tool_calls s ++ SetCenter x y :: map move_call ps ++ [CircleFinished] /\
  mousePressed s' = false.
Proof.
  intros Hact. cbv zeta.
  change (run s (Click x y :: map move_event ps ++ [Release x' y']))
    with (run (MouseClick x y s) (map move_event ps ++ [Release x' y'])).
  rewrite run_app.
  destruct (tool_calls_click x y s Hact) as [Hc [Hact1 Hp1]].
  destruct (tool_calls_moves ps _ Hact1 Hp1) as [Hm [Hact2 _]].
  split; [|reflexivity].
  change (run (run (MouseClick x y s) (map move_event ps)) [Release x' y'])
    with (MouseRelease x' y' (run (MouseClick x y s) (map move_event ps))).
  set (s2 := run (MouseClick x y s) (map move_event ps)) in *.
  replace (tool_calls (MouseRelease x' y' s2))
    with (tool_calls s2 ++ [CircleFinished]).
  - rewrite Hm, Hc, <- !app_assoc. reflexivity.
  - destruct Hact2 as [Ha Hcc]. unfold tool_calls. simpl. unfold tell_tool.
    destruct (circleTool s2); [|contradiction]. rewrite Ha. reflexivity.
Qed.

Lemma drag_gesture_witness :
  tool_calls (run new [Click 1 2; Move 3 4; Move 5 6; Release 5 6])
  = [SetCenter 1 2; SetRadiusPoint 3 4; SetRadiusPoint 5 6; CircleFinished] /\
  mousePressed (run new [Click 1 2; Move 3 4; Move 5 6; Release 5 6]) = false.
Proof.
  apply (drag_gesture new 1 2 5 6 [(3, 4); (5, 6)]).
  split; [reflexivity | discriminate].
Defined.

End SelectionLayerMore.

(** *** Ascending lists *)
Section Ascending.
Import CreationSelectionLayer.
Local Open Scope Z_scope.

Lemma unique_ascending (l : list ElementPtr) :
  StronglySorted Z.le l -> StronglySorted Z.lt (unique l).
Proof.
  induction 1 as [|p l Hs IH Hall]; [constructor|].
  destruct l as [|q l]; [simpl; constructor; constructor|].
  rewrite unique_cons2. destruct (Z.eqb_spec p q) as [->|Hne];
    [assumption|].
  constructor; [assumption|].
  apply Forall_forall. intros r Hr.
  apply (proj1 (In_unique r (q :: l))) in Hr.
  inversion Hs as [|q' l' Hs' Hall' Heq]; subst.
  inversion Hall as [|q' l' Hpq Hrest]; subst.
  simpl in Hr. destruct Hr as [<-|Hr]; [lia|].
  rewrite Forall_forall in Hall'. specialize (Hall' r Hr). lia.
Qed.

(** Two strictly ascending lists with the same members are equal. *)
Lemma ascending_ext (l1 l2 : list ElementPtr) :
  StronglySorted Z.lt l1 -> StronglySorted Z.lt l2 ->
  (forall r, In r l1 <-> In r l2) -> l1 = l2.
Proof.
  intros H1. revert l2.
  induction H1 as [|p l1 Hs1 IH Hall1]; intros l2 H2 Hsame.
  - destruct l2 as [|q l2]; [reflexivity|].
    exfalso. apply (proj2 (Hsame q)). now left.
  - destruct H2 as [|q l2 Hs2 Hall2].
    + exfalso. apply (proj1 (Hsame p)). now left.
    + rewrite Forall_forall in Hall1, Hall2.
      assert (Hpq : p = q).
      { destruct (proj1 (Hsame p) (or_introl eq_refl)) as [->|Hp];
          [reflexivity|].
        destruct (proj2 (Hsame q) (or_introl eq_refl)) as [->|Hq];
          [reflexivity|].
        specialize (Hall1 q Hq). specialize (Hall2 p Hp). lia. }
      subst q. f_equal. apply IH; [assumption|].
      intros r. split; intros Hr.
      * destruct (proj1 (Hsame r) (or_intror Hr)) as [<-|Hr2];
          [|assumption].
        specialize (Hall1 p Hr). lia.
      * destruct (proj2 (Hsame r) (or_intror Hr)) as [<-|Hr1];
          [|assumption].
        specialize (Hall2 p Hr). lia.
Qed.

Lemma length_insert_sorted (p : ElementPtr) (l : list ElementPtr) :
  length (insert_sorted p l) = S (length l).
Proof.
  induction l as [|q l IH]; simpl; [reflexivity|].
  destruct (p <=? q); simpl; [reflexivity | now rewrite IH].
Qed.

Lemma length_sort (l : list ElementPtr) : length (sort l) = length l.
Proof.
  induction l as [|p l IH]; simpl; [reflexivity|].
  now rewrite length_insert_sorted, IH.
Qed.

Lemma length_unique (l : list ElementPtr) :
  (length (unique l) <= length l)%nat.
Proof.
  induction l as [|p l IH]; [simpl; lia|].
  destruct l as [|q l]; [simpl; lia|].
  rewrite unique_cons2. destruct (p =? q); simpl in *; lia.
Qed.

End Ascending.

(** *** More on the circle-tool slot *)
Section CircleToolMore.
Import CreationSelectionLayer.
Local Open Scope Z_scope.

Variable GetSelectedElements : CircleTool -> list ElementPtr.

Lemma finished_found (s : Layer) (tool : CircleTool) :
  circleTool s = Some tool ->
  GetSelectedElements tool <> [] ->
  exists newState,
    CircleToolFinishedSearching GetSelectedElements s =
    {| activeTool := activeTool s;
       circleTool := circleTool s;
       selectedState := Some newState;
       undoStack := match selectedState s with
                    | Some st => st
                    | None => ElementState_new
                    end :: undoStack s;
       redoStack := [];
       mousePressed := mousePressed s |}.
Proof.
  intros Htool Hfound. unfold CircleToolFinishedSearching. rewrite Htool.
  destruct (GetSelectedElements tool) as [|f found]; [contradiction|].
  cbn [length Nat.ltb Nat.leb]. eexists. reflexivity.
Qed.

Lemma finished_merged (s : Layer) (tool : CircleTool) :
  circleTool s = Some tool ->
  GetSelectedElements tool <> [] ->
  current_selection s <> [] ->
  current_selection (CircleToolFinishedSearching GetSelectedElements s)
  = unique (sort (GetSelectedElements tool ++ current_selection s)) /\
  circleTool (CircleToolFinishedSearching GetSelectedElements s)
  = Some tool.
Proof.
  intros Htool Hfound Hsel.
  unfold CircleToolFinishedSearching, current_selection in *.
  rewrite Htool.
  destruct (selectedState s) as [previous|]; [|contradiction].
  destruct (GetSelectedElements tool) as [|f found] eqn:Ef; [contradiction|].
  destruct (GetState previous) as [|c curr] eqn:Ec; [contradiction|].
  cbn [length Nat.ltb Nat.leb selectedState circleTool GetState].
  split; reflexivity.
Qed.

(** A search that found elements can be undone: Undo after the slot gives
    back the selected elements and the undo stack of before, the new
    selection is the one state on the redo stack, and Redo returns to
    it. *)
Theorem selection_can_be_undone (s : Layer) (tool : CircleTool) :
  circleTool s = Some tool ->
  GetSelectedElements tool <> [] ->
  let s1 := CircleToolFinishedSearching GetSelectedElements s in
  current_selection (Undo s1) = current_selection s /\
  undoStack (Undo s1) = undoStack s /\
  (exists newState, selectedState s1 = Some newState /\
                    redoStack (Undo s1) = [newState]) /\
  Redo (Undo s1) = s1.
Proof.
  intros Htool Hfound. cbv zeta.
  destruct (finished_found s tool Htool Hfound) as [newState ->].
  unfold Undo, Redo, current_selection. simpl.
  repeat split.
  - destruct (selectedState s); reflexivity.
  - exists newState. split; reflexivity.
Qed.

(** A search that found elements discards the redo history and adds
    exactly one state to the undo stack: the redo stack is empty
    afterwards, whatever it held, and Redo does nothing. *)
Theorem selection_discards_redo (s : Layer) (tool : CircleTool) :
  circleTool s = Some tool ->
  GetSelectedElements tool <> [] ->
  let s1 := CircleToolFinishedSearching GetSelectedElements s in
  redoStack s1 = [] /\
  Redo s1 = s1 /\
  length (undoStack s1) = S (length (undoStack s)).
Proof.
  intros Htool Hfound. cbv zeta.
  destruct (finished_found s tool Htool Hfound) as [newState ->].
  unfold Redo. simpl. repeat split.
Qed.

(** After a merge of a non-empty selection with a non-empty search result
    the selected pointers are in strictly ascending order, and there are
    at most as many as in the two lists together. *)
Theorem merged_selection_ascending (s : Layer) (tool : CircleTool) :
  circleTool s = Some tool ->
  GetSelectedElements tool <> [] ->
  current_selection s <> [] ->
  let s1 := CircleToolFinishedSearching GetSelectedElements s in
  StronglySorted Z.lt (current_selection s1) /\
  (GetNumElementsSelected s1
   <= length (GetSelectedElements tool) + GetNumElementsSelected s)%nat.
Proof.
  intros Htool Hfound Hsel. cbv zeta.
  unfold CircleToolFinishedSearching, current_selection,
    GetNumElementsSelected in *.
  rewrite Htool.
  destruct (selectedState s) as [previous|]; [|contradiction].
  destruct (GetSelectedElements tool) as [|f found] eqn:Ef; [contradiction|].
  destruct (GetState previous) as [|c curr] eqn:Ec; [contradiction|].
  cbn [length Nat.ltb Nat.leb selectedState GetState].
  split.
  - apply unique_ascending, sort_sorted.
  - eapply Nat.le_trans; [apply length_unique|].
    rewrite length_sort, length_app. simpl. lia.
Qed.

(** Selecting the same elements again does not change the selection: when
    the selection and the search result are non-empty, running the slot a
    second time with the same result leaves the list of selected elements
    as the first run made it. *)
Theorem reselect_same_elements (s : Layer) (tool : CircleTool) :
  circleTool s = Some tool ->
  GetSelectedElements tool <> [] ->
  current_selection s <> [] ->
  current_selection
    (CircleToolFinishedSearching GetSelectedElements
       (CircleToolFinishedSearching GetSelectedElements s))
  = current_selection (CircleToolFinishedSearching GetSelectedElements s).
Proof.
  intros Htool Hfound Hsel.
  destruct (finished_merged s tool Htool Hfound Hsel) as [H1 Ht1].
  assert (Hsel1 : current_selection
                    (CircleToolFinishedSearching GetSelectedElements s)
                  <> []).
  { rewrite H1. destruct (GetSelectedElements tool) as [|f found] eqn:Ef;
      [contradiction|].
    intros E.
    assert (Hin : In f (unique (sort ((f :: found) ++ current_selection s))))
      by (apply In_unique, In_sort; now left).
    rewrite E in Hin. destruct Hin. }
  destruct (finished_merged _ tool Ht1 Hfound Hsel1) as [H2 _].
  rewrite H2, H1. apply ascending_ext.
  - apply unique_ascending, sort_sorted.
  - apply unique_ascending, sort_sorted.
  - intros r. rewrite !In_unique, !In_sort, !in_app_iff.
    rewrite In_unique, In_sort, in_app_iff. tauto.
Qed.

Section ToolInvariant.

Variable AVAILABLETOOLS : Z.

(** The layer always has a tool ID it knows, and the circle tool exists
    whenever it is the active tool: this holds for the constructed layer
    (when the circle tool is among the available ones) and is kept by
    [UseTool] with any ID, by the mouse handlers, by Undo and Redo and by
    the circle-tool slot; a tool ID out of range leaves the layer
    unchanged. *)
Theorem tools_ok_kept (s : Layer) (toolID x y : Z) :
  (CIRCLETOOLINDEX <= AVAILABLETOOLS -> tools_ok AVAILABLETOOLS new) /\
  (tools_ok AVAILABLETOOLS s ->
   tools_ok AVAILABLETOOLS (UseTool AVAILABLETOOLS toolID s) /\
   tools_ok AVAILABLETOOLS (MouseClick x y s) /\
   tools_ok AVAILABLETOOLS (MouseMove x y s) /\
   tools_ok AVAILABLETOOLS (MouseRelease x y s) /\
   tools_ok AVAILABLETOOLS (Undo s) /\
   tools_ok AVAILABLETOOLS (Redo s) /\
   tools_ok AVAILABLETOOLS (CircleToolFinishedSearching GetSelectedElements s)) /\
  (toolID < 0 \/ AVAILABLETOOLS < toolID ->
   UseTool AVAILABLETOOLS toolID s = s).
Proof.
  assert (Hsame : forall s', activeTool s' = activeTool s ->
                    (circleTool s <> None -> circleTool s' <> None) ->
                    tools_ok AVAILABLETOOLS s -> tools_ok AVAILABLETOOLS s').
  { unfold tools_ok. intros s' Ha Hc [Hr Hk]. rewrite Ha.
    split; [assumption|]. intros E. apply Hc, Hk, E. }
  assert (Htell : forall c, circleTool s <> None -> tell_tool c s <> None).
  { intros c. unfold tell_tool. destruct (circleTool s); [|tauto].
    destruct (activeTool s =? CIRCLETOOLINDEX); discriminate. }
  split; [|split].
  - unfold tools_ok, CIRCLETOOLINDEX. simpl. intros H.
    split; [lia | discriminate].
  - intros Hok. split.
    + unfold UseTool.
      destruct (Z.leb_spec 0 toolID), (Z.leb_spec toolID AVAILABLETOOLS);
        simpl; try assumption.
      unfold tools_ok. simpl. split; [lia|].
      intros ->. rewrite Z.eqb_refl. destruct (circleTool s); discriminate.
    + repeat split; apply Hsame; try assumption;
        unfold MouseMove, Undo, Redo, CircleToolFinishedSearching;
        try destruct (mousePressed s);
        try destruct (undoStack s);
        try destruct (redoStack s);
        try destruct (selectedState s);
        try destruct (circleTool s) eqn:E;
        try destruct (0 <? _)%nat;
        simpl; rewrite ?E;
        first [reflexivity | apply Htell | tauto].
  - intros Hout. unfold UseTool.
    destruct (Z.leb_spec 0 toolID), (Z.leb_spec toolID AVAILABLETOOLS);
      simpl; try reflexivity; lia.
Qed.

End ToolInvariant.

End CircleToolMore.

Lemma selection_can_be_undone_witness :
  let G := fun _ : CreationSelectionLayer.CircleTool => [5; 2; 5]%Z in
  let s1 := CreationSelectionLayer.CircleToolFinishedSearching G
              Examples.selected_once in
  CreationSelectionLayer.current_selection (CreationSelectionLayer.Undo s1)
  = CreationSelectionLayer.current_selection Examples.selected_once /\
  CreationSelectionLayer.undoStack (CreationSelectionLayer.Undo s1)
  = CreationSelectionLayer.undoStack Examples.selected_once /\
  (exists newState,
     CreationSelectionLayer.selectedState s1 = Some newState /\
     CreationSelectionLayer.redoStack (CreationSelectionLayer.Undo s1)
     = [newState]) /\
  CreationSelectionLayer.Redo (CreationSelectionLayer.Undo s1) = s1.
Proof.
  apply (selection_can_be_undone (fun _ => [5; 2; 5]%Z)
           Examples.selected_once CreationSelectionLayer.CircleTool_new).
  - reflexivity.
  - discriminate.
Defined.

Lemma selection_discards_redo_witness :
  let G := fun _ : CreationSelectionLayer.CircleTool => [7]%Z in
  let s0 := CreationSelectionLayer.Undo Examples.selected_once in
  let s1 := CreationSelectionLayer.CircleToolFinishedSearching G s0 in
  CreationSelectionLayer.redoStack s1 = [] /\
  CreationSelectionLayer.Redo s1 = s1 /\
  length (CreationSelectionLayer.undoStack s1)
  = S (length (CreationSelectionLayer.undoStack s0)).
Proof.
  apply (selection_discards_redo (fun _ => [7]%Z)
           (CreationSelectionLayer.Undo Examples.selected_once)
           CreationSelectionLayer.CircleTool_new).
  - reflexivity.
  - discriminate.
Defined.

Lemma merged_selection_ascending_witness :
  let G := fun _ : CreationSelectionLayer.CircleTool => [5; 2; 5]%Z in
  let s1 := CreationSelectionLayer.CircleToolFinishedSearching G
              Examples.selected_once in
  StronglySorted Z.lt (CreationSelectionLayer.current_selection s1) /\
  (CreationSelectionLayer.GetNumElementsSelected s1
   <= length [5; 2; 5]%Z
      + CreationSelectionLayer.GetNumElementsSelected Examples.selected_once)%nat.
Proof.
  apply (merged_selection_ascending (fun _ => [5; 2; 5]%Z)
           Examples.selected_once CreationSelectionLayer.CircleTool_new).
  - reflexivity.
  - discriminate.
  - vm_compute. discriminate.
Defined.

Lemma reselect_same_elements_witness :
  let G := fun _ : CreationSelectionLayer.CircleTool => [5; 2; 5]%Z in
  CreationSelectionLayer.current_selection
    (CreationSelectionLayer.CircleToolFinishedSearching G
       (CreationSelectionLayer.CircleToolFinishedSearching G
          Examples.selected_once))
  = CreationSelectionLayer.current_selection
      (CreationSelectionLayer.CircleToolFinishedSearching G
         Examples.selected_once).
Proof.
  apply (reselect_same_elements (fun _ => [5; 2; 5]%Z)
           Examples.selected_once CreationSelectionLayer.CircleTool_new).
  - reflexivity.
  - discriminate.
  - vm_compute. discriminate.
Defined.

Lemma tools_ok_kept_witness :
  CreationSelectionLayer.tools_ok 1
    (CreationSelectionLayer.UseTool 1 0 CreationSelectionLayer.new) /\
  CreationSelectionLayer.UseTool 1 2 CreationSelectionLayer.new
  = CreationSelectionLayer.new.
Proof.
  pose proof (tools_ok_kept (fun _ => []) 1 CreationSelectionLayer.new
                0%Z 3%Z 4%Z) as [Hnew [Hkept _]].
  pose proof (tools_ok_kept (fun _ => []) 1 CreationSelectionLayer.new
                2%Z 3%Z 4%Z) as [_ [_ Hout]].
  split.
  - apply Hkept. apply Hnew. vm_compute. discriminate.
  - apply Hout. right. reflexivity.
Defined.

(** ** The layer manager *)
Section LayerManagerResults.
Import LayerManager.
Local Open Scope N_scope.

Variable Layer : Type.
Variable GetID : Layer -> N.

Lemma hide_loop_keeps (layerID : N) (vs hs vs' hs' : list (option Layer)) :
  length vs = length hs ->
  hide_loop GetID layerID vs hs = Some (vs', hs') ->
  length vs' = length hs' /\ length vs' = length vs /\
  slots vs' hs' = slots vs hs /\
  (exclusive vs hs -> exclusive vs' hs').
Proof.
  revert hs vs' hs'. induction vs as [|v vs IH]; intros hs vs' hs' Hlen H.
  - destruct hs; [|discriminate]. simpl in H. injection H as <- <-.
    simpl. tauto.
  - destruct hs as [|h hs]; [discriminate|]. simpl in H.
    destruct v as [l|]; [|discriminate].
    destruct (hide_loop GetID layerID vs hs) as [[vs1 hs1]|] eqn:E;
      [|discriminate].
    injection Hlen as Hlen.
    destruct (IH hs vs1 hs1 Hlen E) as [H1 [H2 [H3 H4]]].
    destruct ((GetID l =? layerID) && is_null h) eqn:C;
      injection H as <- <-; simpl; rewrite H1, H3;
      repeat split; try congruence; try tauto.
Qed.

Lemma show_loop_keeps (layerID : N) (vs hs vs' hs' : list (option Layer)) :
  length vs = length hs ->
  show_loop GetID layerID vs hs = Some (vs', hs') ->
  length vs' = length hs' /\ length vs' = length vs /\
  slots vs' hs' = slots vs hs /\
  (exclusive vs hs -> exclusive vs' hs').
Proof.
  revert hs vs' hs'. induction vs as [|v vs IH]; intros hs vs' hs' Hlen H.
  - destruct hs; [|discriminate]. simpl in H. injection H as <- <-.
    simpl. tauto.
  - destruct hs as [|h hs]; [discriminate|]. simpl in H.
    destruct h as [l|]; [|discriminate].
    destruct (show_loop GetID layerID vs hs) as [[vs1 hs1]|] eqn:E;
      [|discriminate].
    injection Hlen as Hlen.
    destruct (IH hs vs1 hs1 Hlen E) as [H1 [H2 [H3 H4]]].
    destruct ((GetID l =? layerID) && is_null v) eqn:C;
      injection H as <- <-; simpl; rewrite H1, H3.
    + apply andb_true_iff in C. destruct C as [_ C].
      destruct v; [discriminate|]. simpl.
      repeat split; try congruence; tauto.
    + repeat split; try congruence; tauto.
Qed.

(** The two slot vectors always have the same size (the test of which the
    code says "should always pass"): it holds for a new manager and after
    [DisplayLayerUnique], and [DisplayLayer], [HideLayer] and [ShowLayer]
    keep it. *)
Theorem same_size_kept (layerID : N) (m m' : LayerManager Layer) :
  same_size (@new Layer) /\
  same_size (DisplayLayerUnique GetID layerID m) /\
  (same_size m ->
   same_size (DisplayLayer GetID layerID m) /\
   (HideLayer GetID layerID m = Some m' -> same_size m') /\
   (ShowLayer GetID layerID m = Some m' -> same_size m')).
Proof.
  unfold same_size. split; [reflexivity|]. split; [reflexivity|].
  intros Hs. split; [|split].
  - simpl. rewrite !length_app. simpl. lia.
  - unfold HideLayer. rewrite Hs, Nat.eqb_refl.
    destruct (hide_loop _ _ _ _) as [[vs hs]|] eqn:E; [|discriminate].
    intros H. injection H as <-. simpl.
    exact (proj1 (hide_loop_keeps _ _ _ _ _ Hs E)).
  - unfold ShowLayer. rewrite Hs, Nat.eqb_refl.
    destruct (show_loop _ _ _ _) as [[vs hs]|] eqn:E; [|discriminate].
    intros H. injection H as <-. simpl.
    exact (proj1 (show_loop_keeps _ _ _ _ _ Hs E)).
Qed.

(** [HideLayer] and [ShowLayer] do not change the draw order: when they
    complete, every slot holds the layer it held, shown or hidden, the
    list of terrain layers is the same, and no slot is both shown and
    hidden if none was before. *)
Theorem Hide_Show_keep_order (layerID : N) (m m' : LayerManager Layer) :
  HideLayer GetID layerID m = Some m' \/
  ShowLayer GetID layerID m = Some m' ->
  slots (visibleLayers m') (hiddenLayers m')
  = slots (visibleLayers m) (hiddenLayers m) /\
  terrainLayers m' = terrainLayers m /\
  (exclusive (visibleLayers m) (hiddenLayers m) ->
   exclusive (visibleLayers m') (hiddenLayers m')).
Proof.
  unfold HideLayer, ShowLayer.
  destruct (Nat.eqb_spec (length (visibleLayers m)) (length (hiddenLayers m)))
    as [Hs|Hs].
  - intros [H|H].
    + destruct (hide_loop _ _ _ _) as [[vs hs]|] eqn:E; [|discriminate].
      injection H as <-. simpl.
      destruct (hide_loop_keeps _ _ _ _ _ Hs E) as [_ [_ [H3 H4]]]. auto.
    + destruct (show_loop _ _ _ _) as [[vs hs]|] eqn:E; [|discriminate].
      injection H as <-. simpl.
      destruct (show_loop_keeps _ _ _ _ _ Hs E) as [_ [_ [H3 H4]]]. auto.
  - intros [H|H]; injection H as <-; auto.
Qed.

Lemma hide_loop_all_shown (layerID : N) (vs hs : list (option Layer)) :
  Forall (fun v => v <> None) vs ->
  Forall (fun h => h = None) hs ->
  length vs = length hs ->
  hide_loop GetID layerID vs hs
  = Some (map (hidden_if GetID layerID) vs,
          map (taken_if GetID layerID) vs).
Proof.
  intros Hv. revert hs. induction Hv as [|v vs Hne Hv IH]; intros hs Hh Hlen.
  - destruct hs; [reflexivity | discriminate].
  - destruct hs as [|h hs]; [discriminate|].
    inversion Hh as [|h' hs' Hnull Hh']; subst.
    injection Hlen as Hlen. simpl.
    destruct v as [l|]; [|contradiction].
    rewrite (IH hs Hh' Hlen). simpl.
    destruct (GetID l =? layerID); reflexivity.
Qed.

(** When every slot is shown, [HideLayer] completes and hides exactly the
    slots whose layer has the given ID: those visible slots become null
    and their hidden slots take the layer, every other slot stays as it
    is. *)
Theorem HideLayer_all_shown (layerID : N) (m : LayerManager Layer) :
  all_shown m ->
  HideLayer GetID layerID m
  = Some {| terrainLayers := terrainLayers m;
            visibleLayers :=
              map (hidden_if GetID layerID) (visibleLayers m);
            hiddenLayers :=
              map (taken_if GetID layerID) (visibleLayers m) |}.
Proof.
  intros [Hs [Hv Hh]]. unfold HideLayer. unfold same_size in Hs.
  rewrite Hs, Nat.eqb_refl.
  rewrite (hide_loop_all_shown layerID _ _ Hv Hh Hs). reflexivity.
Qed.

Lemma show_loop_all_hidden (layerID : N) (vs : list (option Layer)) :
  Forall (shows GetID layerID) vs ->
  show_loop GetID layerID
    (map (hidden_if GetID layerID) vs) (map (taken_if GetID layerID) vs)
  = Some (vs, map (fun _ => None) vs).
Proof.
  induction 1 as [|v vs Hv Hall IH]; [reflexivity|].
  destruct v as [l|]; [|destruct Hv]. simpl in Hv. simpl.
  rewrite (proj2 (N.eqb_eq _ _) Hv). rewrite IH. simpl.
  rewrite (proj2 (N.eqb_eq _ _) Hv). reflexivity.
Qed.

Lemma all_null_map (hs vs : list (option Layer)) :
  Forall (fun h => h = None) hs -> length vs = length hs ->
  map (fun _ => None) vs = hs.
Proof.
  intros Hh. revert vs. induction Hh as [|h hs -> Hh IH]; intros vs Hlen.
  - destruct vs; [reflexivity | discriminate].
  - destruct vs as [|v vs]; [discriminate|]. injection Hlen as Hlen.
    simpl. now rewrite IH.
Qed.

(** Hiding and showing again is a round trip when every slot is shown and
    holds a layer with the given ID (as after [DisplayLayerUnique] of an
    existing layer): [HideLayer] completes, and [ShowLayer] on its result
    gives back the manager as it was. *)
Theorem Hide_then_Show_restores (layerID : N) (m : LayerManager Layer) :
  all_shown m ->
  Forall (shows GetID layerID) (visibleLayers m) ->
  exists m1, HideLayer GetID layerID m = Some m1 /\
             ShowLayer GetID layerID m1 = Some m.
Proof.
  intros Hall Hid. rewrite (HideLayer_all_shown layerID m Hall).
  eexists. split; [reflexivity|].
  destruct Hall as [Hs [Hv Hh]]. unfold same_size in Hs.
  unfold ShowLayer. simpl. rewrite !length_map, Nat.eqb_refl.
  rewrite (show_loop_all_hidden layerID _ Hid).
  rewrite (all_null_map _ _ Hh Hs). destruct m; reflexivity.
Qed.

Lemma hide_loop_completes (layerID : N) (vs hs : list (option Layer)) :
  length vs = length hs ->
  hide_loop GetID layerID vs hs <> None <-> Forall (fun v => v <> None) vs.
Proof.
  revert hs. induction vs as [|v vs IH]; intros hs Hlen.
  - destruct hs; [|discriminate]. simpl. split; [constructor | discriminate].
  - destruct hs as [|h hs]; [discriminate|]. injection Hlen as Hlen.
    simpl. specialize (IH hs Hlen). destruct v as [l|].
    + destruct (hide_loop GetID layerID vs hs) as [[vs1 hs1]|].
      * split.
        -- intros _. constructor; [discriminate|]. apply IH. discriminate.
        -- intros _. destruct (_ && _); discriminate.
      * split; [tauto|]. intros H. inversion H; subst. tauto.
    + split; [tauto|]. intros H. inversion H; subst. tauto.
Qed.

Lemma show_loop_completes (layerID : N) (vs hs : list (option Layer)) :
  length vs = length hs ->
  show_loop GetID layerID vs hs <> None <-> Forall (fun h => h <> None) hs.
Proof.
  revert hs. induction vs as [|v vs IH]; intros hs Hlen.
  - destruct hs; [|discriminate]. simpl. split; [constructor | discriminate].
  - destruct hs as [|h hs]; [discriminate|]. injection Hlen as Hlen.
    simpl. specialize (IH hs Hlen). destruct h as [l|].
    + destruct (show_loop GetID layerID vs hs) as [[vs1 hs1]|].
      * split.
        -- intros _. constructor; [discriminate|]. apply IH. discriminate.
        -- intros _. destruct (_ && _); discriminate.
      * split; [tauto|]. intros H. inversion H; subst. tauto.
    + split; [tauto|]. intros H. inversion H; subst. tauto.
Qed.

Lemma draw_loop_completes (vs : list (option Layer)) :
  draw_loop vs <> None <-> Forall (fun v => v <> None) vs.
Proof.
  induction vs as [|v vs IH]; simpl.
  - split; [constructor | discriminate].
  - destruct v as [l|].
    + destruct (draw_loop vs).
      * split; [|discriminate].
        intros _. constructor; [discriminate|]. apply IH. discriminate.
      * split; [tauto|]. intros H. inversion H; subst. tauto.
    + split; [tauto|]. intros H. inversion H; subst. tauto.
Qed.

(** [HideLayer], [ShowLayer] and [DrawVisibleLayers] dereference every
    slot of the vector they walk without a null test.  With vectors of one
    size, [HideLayer] and [DrawVisibleLayers] complete exactly when no
    visible slot is null, and [ShowLayer] exactly when no hidden slot is
    null. *)
Theorem null_slots_are_dereferenced (layerID : N) (m : LayerManager Layer) :
  same_size m ->
  (HideLayer GetID layerID m <> None <->
   Forall (fun v => v <> None) (visibleLayers m)) /\
  (ShowLayer GetID layerID m <> None <->
   Forall (fun h => h <> None) (hiddenLayers m)) /\
  (DrawVisibleLayers m <> None <->
   Forall (fun v => v <> None) (visibleLayers m)).
Proof.
  intros Hs. unfold same_size in Hs. unfold HideLayer, ShowLayer.
  rewrite Hs, Nat.eqb_refl. split; [|split].
  - rewrite <- (hide_loop_completes layerID _ _ Hs).
    destruct (hide_loop _ _ _ _) as [[vs hs]|];
      split; intros H; try discriminate; tauto.
  - rewrite <- (show_loop_completes layerID _ _ Hs).
    destruct (show_loop _ _ _ _) as [[vs hs]|];
      split; intros H; try discriminate; tauto.
  - apply draw_loop_completes.
Qed.

(** [DisplayLayerUnique] of the ID of a terrain layer makes
    [DrawVisibleLayers] draw that layer and no other; for an ID that no
    terrain layer has, [GetLayerByID] returns null, the null pointer is
    stored in the one visible slot, and drawing dereferences it. *)
Theorem DisplayLayerUnique_draws (layerID : N) (m : LayerManager Layer) :
  match GetLayerByID GetID layerID m with
  | Some l =>
      In l (terrainLayers m) /\ GetID l = layerID /\
      DrawVisibleLayers (DisplayLayerUnique GetID layerID m) = Some [l]
  | None =>
      (forall l, In l (terrainLayers m) -> GetID l <> layerID) /\
      visibleLayers (DisplayLayerUnique GetID layerID m) = [None] /\
      DrawVisibleLayers (DisplayLayerUnique GetID layerID m) = None
  end.
Proof.
  unfold DrawVisibleLayers, DisplayLayerUnique, DisplayLayer, GetLayerByID.
  simpl. destruct (find _ (terrainLayers m)) as [l|] eqn:F.
  - destruct (find_some _ _ F) as [Hin Hid]. apply N.eqb_eq in Hid.
    repeat split; assumption.
  - repeat split. intros l Hin Hid.
    pose proof (find_none _ _ F l Hin) as Hn. simpl in Hn.
    apply N.eqb_neq in Hn. contradiction.
Qed.

(** Creating a terrain layer and looking it up: the returned ID is the ID
    of the new layer; if no terrain layer had that ID before, a lookup of
    it now finds the new layer; every lookup that found a layer before
    finds the same layer; and the slot vectors are untouched. *)
Theorem CreateNewTerrainLayer_lookup
  (newLayer : Layer) (m : LayerManager Layer) (otherID : N) :
  let r := CreateNewTerrainLayer GetID newLayer m in
  fst r = GetID newLayer /\
  (GetLayerByID GetID (fst r) m = None ->
   GetLayerByID GetID (fst r) (snd r) = Some newLayer) /\
  (otherID <> GetID newLayer ->
   GetLayerByID GetID otherID (snd r) = GetLayerByID GetID otherID m) /\
  (forall l, GetLayerByID GetID otherID m = Some l ->
             GetLayerByID GetID otherID (snd r) = Some l) /\
  visibleLayers (snd r) = visibleLayers m /\
  hiddenLayers (snd r) = hiddenLayers m.
Proof.
  cbv zeta. unfold CreateNewTerrainLayer, GetLayerByID. simpl.
  split; [reflexivity|]. rewrite !find_app. simpl.
  split; [|split; [|split; [|split; reflexivity]]].
  - intros ->. rewrite N.eqb_refl. reflexivity.
  - intros Hne. destruct (find _ (terrainLayers m)); [reflexivity|].
    destruct (N.eqb_spec (GetID newLayer) otherID); [congruence|reflexivity].
  - intros l ->. reflexivity.
Qed.

End LayerManagerResults.

Lemma same_size_kept_witness :
  LayerManager.same_size
    {| LayerManager.terrainLayers := [1; 2]%N;
       LayerManager.visibleLayers := [None; Some 2%N];
       LayerManager.hiddenLayers := [Some 1%N; None] |}.
Proof.
  apply (proj1 (proj2 (proj2 (proj2
           (same_size_kept N (fun id => id) 1%N Examples.two_layers
              {| LayerManager.terrainLayers := [1; 2]%N;
                 LayerManager.visibleLayers := [None; Some 2%N];
                 LayerManager.hiddenLayers := [Some 1%N; None] |}))
           eq_refl))).
  reflexivity.
Defined.

Lemma Hide_Show_keep_order_witness :
  LayerManager.slots [None; Some 2%N] [Some 1%N; None]
  = LayerManager.slots
      (LayerManager.visibleLayers Examples.two_layers)
      (LayerManager.hiddenLayers Examples.two_layers).
Proof.
  apply (Hide_Show_keep_order N (fun id => id) 1%N Examples.two_layers
           {| LayerManager.terrainLayers := [1; 2]%N;
              LayerManager.visibleLayers := [None; Some 2%N];
              LayerManager.hiddenLayers := [Some 1%N; None] |}).
  left. reflexivity.
Defined.

Lemma HideLayer_all_shown_witness :
  LayerManager.HideLayer (fun id => id) 1%N Examples.two_layers
  = Some {| LayerManager.terrainLayers := [1; 2]%N;
            LayerManager.visibleLayers := [None; Some 2%N];
            LayerManager.hiddenLayers := [Some 1%N; None] |}.
Proof.
  apply (HideLayer_all_shown N (fun id => id) 1%N Examples.two_layers).
  split; [reflexivity|].
  split; repeat constructor; discriminate.
Defined.

Lemma Hide_then_Show_restores_witness :
  exists m1,
    LayerManager.HideLayer (fun id => id) 1%N Examples.one_layer = Some m1 /\
    LayerManager.ShowLayer (fun id => id) 1%N m1 = Some Examples.one_layer.
Proof.
  apply (Hide_then_Show_restores N (fun id => id) 1%N Examples.one_layer).
  - split; [reflexivity|]. split; repeat constructor; discriminate.
  - repeat constructor.
Defined.

Lemma null_slots_are_dereferenced_witness :
  LayerManager.DrawVisibleLayers Examples.two_layers <> None.
Proof.
  apply (proj2 (proj2 (null_slots_are_dereferenced N (fun id => id) 1%N
                         Examples.two_layers eq_refl))).
  repeat constructor; discriminate.
Defined.

Lemma CreateNewTerrainLayer_lookup_witness :
  LayerManager.GetLayerByID (fun id => id) 3%N
    (snd (LayerManager.CreateNewTerrainLayer (fun id => id) 3%N
            Examples.two_layers))
  = Some 3%N.
Proof.
  apply (CreateNewTerrainLayer_lookup N (fun id => id) 3%N
           Examples.two_layers 1%N).
  reflexivity.
Defined.

(** ** The value slider *)
Section ValueSliderResults.
Import ValueSlider.
Local Open Scope Z_scope.

(** For a slider of positive height with [minVal <= maxVal], a height [y]
    between 0 and the height of the slider maps to a value between
    [minVal] and [maxVal], computed without overflow; the top (y = 0) is
    [maxVal] and the bottom (y = height) is [minVal]. *)
Theorem ValFromY_in_range (height : Z) (s : ValueSlider) (y : Z) :
  0 < height ->
  minVal s <= maxVal s ->
  is_int height -> is_int (minVal s) -> is_int (maxVal s) ->
  is_int (height * (maxVal s - minVal s)) ->
  0 <= y <= height ->
  (exists val, ValFromY height s y = Some val /\
               minVal s <= val <= maxVal s) /\
  no_overflow height s y /\
  ValFromY height s 0 = Some (maxVal s) /\
  ValFromY height s height = Some (minVal s).
Proof.
  intros Hh Hm Hint Hmin Hmax Hprod Hy. unfold ValFromY.
  destruct (Z.eqb_spec height 0) as [E|_]; [lia|].
  assert (H0 : 0 <= y * (maxVal s - minVal s)) by nia.
  assert (H1 : y * (maxVal s - minVal s) <= height * (maxVal s - minVal s))
    by nia.
  assert (Hq : Z.quot (y * (maxVal s - minVal s)) height
               = y * (maxVal s - minVal s) / height)
    by (apply Z.quot_div_nonneg; lia).
  assert (Hlo : 0 <= y * (maxVal s - minVal s) / height)
    by (apply Z.div_pos; lia).
  assert (Hhi : y * (maxVal s - minVal s) / height <= maxVal s - minVal s).
  { apply Z.div_le_upper_bound; [lia | nia]. }
  assert (Hd : maxVal s - minVal s <= height * (maxVal s - minVal s))
    by nia.
  unfold no_overflow, is_int in *.
  split; [|split; [|split]].
  - eexists. split; [reflexivity|]. lia.
  - rewrite Hq. lia.
  - rewrite Z.mul_0_l, Z.quot_0_l by lia. f_equal. lia.
  - rewrite Z.mul_comm, Z.quot_mul by lia. f_equal. lia.
Qed.

Lemma ValFromY_in_range_witness :
  (exists val, ValFromY 100 new 40 = Some val /\ 0 <= val <= 255) /\
  no_overflow 100 new 40 /\
  ValFromY 100 new 0 = Some 255 /\
  ValFromY 100 new 100 = Some 0.
Proof.
  apply (ValFromY_in_range 100 new 40); unfold is_int; simpl; lia.
Defined.

(** With [minVal <= maxVal] and a positive height the value falls as the
    height [y] grows, wherever it is computed without overflow. *)
Theorem ValFromY_antitone (height : Z) (s : ValueSlider) (y1 y2 : Z) :
  0 < height ->
  minVal s <= maxVal s ->
  no_overflow height s y1 -> no_overflow height s y2 ->
  y1 <= y2 ->
  exists v1 v2, ValFromY height s y1 = Some v1 /\
                ValFromY height s y2 = Some v2 /\ v2 <= v1.
Proof.
  intros Hh Hm _ _ Hy. unfold ValFromY.
  destruct (Z.eqb_spec height 0) as [E|_]; [lia|].
  do 2 eexists. split; [reflexivity|]. split; [reflexivity|].
  assert (H : Z.quot (y1 * (maxVal s - minVal s)) height
              <= Z.quot (y2 * (maxVal s - minVal s)) height)
    by (apply Z.quot_le_mono; [lia | nia]).
  lia.
Qed.

Lemma ValFromY_antitone_witness :
  exists v1 v2, ValFromY 100 new (-5) = Some v1 /\
                ValFromY 100 new 30 = Some v2 /\ v2 <= v1.
Proof.
  apply (ValFromY_antitone 100 new (-5) 30);
    unfold no_overflow, is_int; simpl; lia.
Defined.

(** The mouse handlers keep the selected value between the limits: when a
    press or a move completes (the value of the pressed height being
    computed without overflow), the value is within [minVal, maxVal] if it
    was before, and the limits, the hue and the saturation are
    unchanged. *)
Theorem mouse_keeps_value_in_range
  (rect : Rect) (left inside : bool) (px py : Z) (s s' : ValueSlider) :
  no_overflow (rect_height rect) s (py - rect_y rect) ->
  mousePressEvent rect left px py s = Some s' \/
  mouseMoveEvent rect left inside px py s = Some s' ->
  value_in_range s ->
  value_in_range s' /\
  minVal s' = minVal s /\ maxVal s' = maxVal s /\
  currentHue s' = currentHue s /\
  currentSaturation s' = currentSaturation s.
Proof.
  unfold value_in_range, mousePressEvent, mouseMoveEvent.
  intros _ H Hr.
  assert (Hgen :
    match ValFromY (rect_height rect) s (py - rect_y rect) with
    | Some val =>
        if (val <? minVal s) || (val >? maxVal s) then Some s
        else Some (set_value s val (rect_width rect - triangleWidth s, py))
    | None => None
    end = Some s' \/ Some s = Some s').
  { destruct left; [|destruct H as [H|H]; now right].
    destruct H as [H|H]; [now left|].
    destruct inside; simpl in H; [now left | now right]. }
  clear H. destruct Hgen as [H|H]; [|injection H as <-; tauto].
  destruct (ValFromY _ s _) as [val|]; [|discriminate].
  destruct (Z.ltb_spec val (minVal s)), (Z.gtb_spec val (maxVal s));
    simpl in H; injection H as <-; simpl;
    first [tauto | repeat split; lia].
Qed.

Lemma mouse_keeps_value_in_range_witness :
  value_in_range (set_value new 128 (90, 50)).
Proof.
  apply (mouse_keeps_value_in_range (mkRect 0 0 100 100) true true 5 50
           new (set_value new 128 (90, 50))).
  - unfold no_overflow, is_int. simpl. lia.
  - left. vm_compute. reflexivity.
  - vm_compute. split; discriminate.
Defined.

(** A left press at a height inside the slider always selects: for a
    slider of positive height with [minVal <= maxVal] and a press with
    [0 <= y - contentsRect().y() <= height], the selected value becomes
    the value of that height and the marker moves to the pressed row. *)
Theorem press_inside_selects
  (rect : Rect) (px py : Z) (s : ValueSlider) :
  0 < rect_height rect ->
  minVal s <= maxVal s ->
  is_int (rect_height rect) -> is_int (minVal s) -> is_int (maxVal s) ->
  is_int (rect_height rect * (maxVal s - minVal s)) ->
  0 <= py - rect_y rect <= rect_height rect ->
  exists val s',
    ValFromY (rect_height rect) s (py - rect_y rect) = Some val /\
    mousePressEvent rect true px py s = Some s' /\
    GetSelectedValue s' = val /\
    trianglePoint s' = (rect_width rect - triangleWidth s, py).
Proof.
  intros Hh Hm Hint Hmin Hmax Hprod Hy.
  destruct (ValFromY_in_range _ s _ Hh Hm Hint Hmin Hmax Hprod Hy)
    as [[val [Hv Hr]] _].
  exists val. eexists. split; [exact Hv|].
  unfold mousePressEvent. rewrite Hv.
  destruct (Z.ltb_spec val (minVal s)); [lia|].
  destruct (Z.gtb_spec val (maxVal s)); [lia|].
  simpl. repeat split.
Qed.

Lemma press_inside_selects_witness :
  exists val s',
    ValFromY 100 new 50 = Some val /\
    mousePressEvent (mkRect 0 0 100 100) true 5 50 new = Some s' /\
    GetSelectedValue s' = val /\
    trianglePoint s' = (90, 50).
Proof.
  apply (press_inside_selects (mkRect 0 0 100 100) 5 50 new);
    unfold is_int; simpl; lia.
Defined.

(** [setColor] clamps: with [minHue <= maxHue] and [minSat <= maxSat] the
    stored hue and saturation are within their limits for every colour, a
    hue and a saturation already within the limits are stored as they
    are, and the selected value is not touched. *)
Theorem setColor_clamps (h st : Z) (s : ValueSlider) :
  minHue s <= maxHue s ->
  minSat s <= maxSat s ->
  let s' := setColor h st s in
  minHue s <= currentHue s' <= maxHue s /\
  minSat s <= currentSaturation s' <= maxSat s /\
  (minHue s <= h <= maxHue s -> currentHue s' = h) /\
  (minSat s <= st <= maxSat s -> currentSaturation s' = st) /\
  currentValue s' = currentValue s.
Proof.
  intros Hh Hs. cbv zeta. unfold setColor. simpl.
  destruct (Z.ltb_spec h (minHue s)), (Z.ltb_spec st (minSat s));
    repeat match goal with
           | |- context [?a >? ?b] => destruct (Z.gtb_spec a b)
           end;
    repeat split; lia.
Qed.

Lemma setColor_clamps_witness :
  let s' := setColor (-1) 300 new in
  0 <= currentHue s' <= 359 /\
  0 <= currentSaturation s' <= 255 /\
  (0 <= -1 <= 359 -> currentHue s' = -1) /\
  (0 <= 300 <= 255 -> currentSaturation s' = 300) /\
  currentValue s' = 200.
Proof.
  apply (setColor_clamps (-1) 300 new); simpl; lia.
Defined.

End ValueSliderResults.

(** ** The colour of the solid shader *)
Section SolidShaderResults.
Import SolidShader.

(** [SetColor] never stores a negative component: a colour without
    negative components stays so for all arguments; a negative argument
    keeps the component it stands for, so four negative arguments change
    nothing; and setting the same colour twice is setting it once. *)
Theorem SetColor_keeps_non_negative (r g b a : Q) (c : Color) :
  (non_negative c -> non_negative (SetColor r g b a c)) /\
  (r < 0 -> g < 0 -> b < 0 -> a < 0 -> SetColor r g b a c = c) /\
  SetColor r g b a (SetColor r g b a c) = SetColor r g b a c.
Proof.
  unfold non_negative, SetColor. split; [|split].
  - intros [H0 [H1 [H2 H3]]]. simpl.
    destruct (Qleb 0 r) eqn:Er, (Qleb 0 g) eqn:Eg,
             (Qleb 0 b) eqn:Eb, (Qleb 0 a) eqn:Ea;
      repeat split; try assumption; now apply Qleb_le.
  - intros Hr Hg Hb Ha.
    assert (Hneg : forall v, v < 0 -> Qleb 0 v = false).
    { intros v Hv. destruct (Qleb 0 v) eqn:E; [|reflexivity].
      apply Qleb_le in E. exfalso. exact (Qlt_not_le _ _ Hv E). }
    rewrite (Hneg r Hr), (Hneg g Hg), (Hneg b Hb), (Hneg a Ha).
    destruct c; reflexivity.
  - simpl.
    destruct (Qleb 0 r), (Qleb 0 g), (Qleb 0 b), (Qleb 0 a); reflexivity.
Qed.

Lemma SetColor_keeps_non_negative_witness :
  non_negative (SetColor (2#5) (-1) (1#5) (-1) white) /\
  SetColor (-1) (-1) (-1) (-1) white = white.
Proof.
  pose proof (SetColor_keeps_non_negative (2#5) (-1) (1#5) (-1) white)
    as [Hkeep _].
  pose proof (SetColor_keeps_non_negative (-1) (-1) (-1) (-1) white)
    as [_ [Hneg _]].
  split.
  - apply Hkeep. repeat split; discriminate.
  - apply Hneg; reflexivity.
Defined.

End SolidShaderResults.

(** ** Click search over the store: what a query touches *)
Section StoreQueries.
Import adcData QuadtreeData ClickSearchStore.

Lemma reads_only_ret {A : Type} (a : A) : reads_only (ret a).
Proof. intros m a' m' H. injection H as _ <-. reflexivity. Qed.

Lemma reads_only_bind {A B : Type} (c : M A) (k : A -> M B) :
  reads_only c -> (forall a, reads_only (k a)) -> reads_only (bind c k).
Proof.
  intros Hc Hk m b m' H. unfold bind in H.
  destruct (c m) as [[a m1]|] eqn:E; [|discriminate].
  rewrite (Hc m a m1 E) in H. exact (Hk a m b m' H).
Qed.

Lemma reads_only_load {A : Type} (table : Store -> ptr -> option A)
  (p : ptr) : reads_only (load table p).
Proof.
  intros m a m' H. unfold load in H.
  destruct (table (store m) p); [|discriminate].
  injection H as _ <-. reflexivity.
Qed.

Lemma reads_only_get_this : reads_only get_this.
Proof. intros m a m' H. injection H as _ <-. reflexivity. Qed.

Lemma reads_only_first_nonnull (attempts : list (M ptr)) :
  Forall reads_only attempts -> reads_only (first_nonnull attempts).
Proof.
  induction 1 as [|c rest Hc Hrest IH]; simpl; [apply reads_only_ret|].
  apply reads_only_bind; [assumption|].
  intros r. destruct (r =? 0)%N; [assumption | apply reads_only_ret].
Qed.

(** Closes the goals [reads_only c] for the straight-line parts. *)
Ltac reads :=
  repeat first
    [ apply reads_only_ret
    | apply reads_only_load
    | apply reads_only_get_this
    | apply reads_only_bind; [|intros ?]
    | match goal with
      | |- reads_only (if ?b then _ else _) => destruct b
      end ].

Lemma reads_only_scan_nodes (its : list ptr) (started : bool)
  (closest : ptr) (record : Q) :
  reads_only (scan_nodes its started closest record).
Proof.
  revert started closest record.
  induction its as [|it rest IH]; intros started closest record; simpl;
    [apply reads_only_ret|].
  destruct (negb started); unfold Distance; reads; apply IH.
Qed.

Lemma reads_only_scan_elements (its : list ptr) :
  reads_only (scan_elements its).
Proof.
  induction its as [|it rest IH]; simpl; [apply reads_only_ret|].
  unfold PointIsInsideElement. reads. exact IH.
Qed.

Lemma reads_only_SearchNodes_leaf (p : ptr) : reads_only (SearchNodes_leaf p).
Proof.
  unfold SearchNodes_leaf, PointIsInsideSquare. reads.
  apply reads_only_scan_nodes.
Qed.

Lemma reads_only_SearchElements_leaf (p : ptr) :
  reads_only (SearchElements_leaf p).
Proof.
  unfold SearchElements_leaf, PointIsInsideSquare. reads.
  apply reads_only_scan_elements.
Qed.

(** The descent only reads: whenever the node search below a branch
    completes, the store and the search object are as before. *)
Lemma reads_only_SearchNodes_branch (budget : nat) (p : ptr) :
  reads_only (SearchNodes_branch budget p).
Proof.
  revert p. induction budget as [|budget IH]; intros p;
    cbn [SearchNodes_branch].
  - intros m a m' H. discriminate.
  - unfold PointIsInsideSquare. reads.
    destruct (cell_branches _) as [b0 b1 b2 b3].
    destruct (cell_leaves _) as [l0 l1 l2 l3].
    apply reads_only_first_nonnull.
    repeat constructor;
      match goal with
      | |- reads_only (if ?b then _ else _) => destruct b
      end;
      first [ apply reads_only_ret | apply IH
            | apply reads_only_SearchNodes_leaf ].
Qed.

Lemma reads_only_SearchElements_branch (budget : nat) (p : ptr) :
  reads_only (SearchElements_branch budget p).
Proof.
  revert p. induction budget as [|budget IH]; intros p;
    cbn [SearchElements_branch].
  - intros m a m' H. discriminate.
  - unfold PointIsInsideSquare. reads.
    destruct (cell_branches _) as [b0 b1 b2 b3].
    destruct (cell_leaves _) as [l0 l1 l2 l3].
    apply reads_only_first_nonnull.
    repeat constructor;
      match goal with
      | |- reads_only (if ?b then _ else _) => destruct b
      end;
      first [ apply reads_only_ret | apply IH
            | apply reads_only_SearchElements_leaf ].
Qed.

(** *** Completion on a well-formed store *)

Lemma completes_ret {A : Type} (a : A) (m : Machine) : completes (ret a) m.
Proof. exists a. reflexivity. Qed.

Lemma completes_bind {A B : Type} (c : M A) (k : A -> M B) (m : Machine) :
  completes c m -> (forall a, completes (k a) m) -> completes (bind c k) m.
Proof.
  intros [a Ha] Hk. destruct (Hk a) as [b Hb].
  exists b. unfold bind. rewrite Ha. exact Hb.
Qed.

Lemma completes_load {A : Type} (table : Store -> ptr -> option A)
  (p : ptr) (m : Machine) :
  is_some (table (store m) p) = true -> completes (load table p) m.
Proof.
  unfold completes, load.
  destruct (table (store m) p) as [c|]; [|discriminate].
  intros _. exists c. reflexivity.
Qed.

Lemma completes_get_this (m : Machine) : completes get_this m.
Proof. exists (this m). reflexivity. Qed.

Lemma completes_first_nonnull (attempts : list (M ptr)) (m : Machine) :
  Forall (fun c => completes c m) attempts ->
  completes (first_nonnull attempts) m.
Proof.
  induction 1 as [|c rest Hc Hrest IH]; simpl; [apply completes_ret|].
  apply completes_bind; [assumption|].
  intros r. destruct (r =? 0)%N; [assumption | apply completes_ret].
Qed.

Lemma completes_scan_nodes (m : Machine) (its : list ptr) (started : bool)
  (closest : ptr) (record : Q) :
  forallb (fun np => is_some (node_at (store m) np)) its = true ->
  completes (scan_nodes its started closest record) m.
Proof.
  revert started closest record.
  induction its as [|it rest IH]; intros started closest record H; simpl;
    [apply completes_ret|].
  simpl in H. apply andb_true_iff in H. destruct H as [Hit Hrest].
  assert (HD : completes (Distance it) m).
  { unfold Distance. apply completes_bind; [now apply completes_load|].
    intros n. apply completes_bind; [apply completes_get_this|].
    intros cs. apply completes_ret. }
  destruct (negb started); (apply completes_bind; [exact HD|]); intros d.
  - now apply IH.
  - destruct (Qltb d record); now apply IH.
Qed.

Lemma completes_scan_elements (m : Machine) (its : list ptr) :
  forallb (fun ep =>
             match element_at (store m) ep with
             | Some e => is_some (node_at (store m) (cell_n1 e)) &&
                         is_some (node_at (store m) (cell_n2 e)) &&
                         is_some (node_at (store m) (cell_n3 e))
             | None => false
             end) its = true ->
  completes (scan_elements its) m.
Proof.
  induction its as [|it rest IH]; intros H; simpl; [apply completes_ret|].
  simpl in H. apply andb_true_iff in H. destruct H as [Hit Hrest].
  apply completes_bind.
  - unfold PointIsInsideElement, completes, bind, load, get_this, ret.
    destruct (element_at (store m) it) as [e|]; [|discriminate].
    apply andb_true_iff in Hit. destruct Hit as [Hit H3].
    apply andb_true_iff in Hit. destruct Hit as [H1 H2].
    destruct (node_at (store m) (cell_n1 e)); [|discriminate].
    destruct (node_at (store m) (cell_n2 e)); [|discriminate].
    destruct (node_at (store m) (cell_n3 e)); [|discriminate].
    eexists. reflexivity.
  - intros b. destruct b; [apply completes_ret | now apply IH].
Qed.

Lemma completes_bind_with {A B : Type} (c : M A) (k : A -> M B)
  (m : Machine) (a : A) :
  c m = Some (a, m) -> completes (k a) m -> completes (bind c k) m.
Proof.
  intros Ha [b Hb]. exists b. unfold bind. rewrite Ha. exact Hb.
Qed.

Lemma load_Some {A : Type} (table : Store -> ptr -> option A)
  (p : ptr) (m : Machine) (c : A) :
  table (store m) p = Some c -> load table p m = Some (c, m).
Proof. intros H. unfold load. rewrite H. reflexivity. Qed.

Lemma completes_inside (bd : Bounds) (m : Machine) :
  completes (PointIsInsideSquare bd) m.
Proof.
  unfold PointIsInsideSquare.
  apply completes_bind; [apply completes_get_this|].
  intros cs. apply completes_ret.
Qed.

Lemma completes_leaf (m : Machine) (lp : ptr) :
  wf_leaf (store m) lp = true ->
  completes (SearchNodes_leaf lp) m /\ completes (SearchElements_leaf lp) m.
Proof.
  unfold wf_leaf, SearchNodes_leaf, SearchElements_leaf.
  destruct (leaf_at (store m) lp) as [c|] eqn:E; [|discriminate].
  intros H. apply andb_true_iff in H. destruct H as [Hn He].
  split; (apply (completes_bind_with _ _ m c); [now apply load_Some|]);
    (apply completes_bind; [apply completes_inside|]);
    intros inside; destruct inside; try apply completes_ret.
  - now apply completes_scan_nodes.
  - now apply completes_scan_elements.
Qed.

(** On a tree of cells of at most [depth] levels, a budget of [depth] or
    more lets both descents complete, and they leave the state as it
    was. *)
Lemma completes_branch (m : Machine) (depth : nat) :
  forall (budget : nat) (p : ptr),
    wf_branch (store m) depth p = true -> (depth <= budget)%nat ->
    completes (SearchNodes_branch budget p) m /\
    completes (SearchElements_branch budget p) m.
Proof.
  induction depth as [|depth IH]; intros budget p Hwf Hle;
    [discriminate|].
  destruct budget as [|budget]; [lia|].
  cbn [wf_branch] in Hwf.
  cbn [SearchNodes_branch SearchElements_branch].
  destruct (branch_at (store m) p) as [c|] eqn:E; [|discriminate].
  destruct (cell_branches c) as [b0 b1 b2 b3] eqn:Eb.
  destruct (cell_leaves c) as [l0 l1 l2 l3] eqn:El.
  apply andb_true_iff in Hwf. destruct Hwf as [Hb Hl].
  rewrite forallb_forall in Hb, Hl.
  assert (HB : forall bp, In bp [b0; b1; b2; b3] ->
            completes (if (bp =? 0)%N then ret 0%N
                       else SearchNodes_branch budget bp) m /\
            completes (if (bp =? 0)%N then ret 0%N
                       else SearchElements_branch budget bp) m).
  { intros bp Hin. specialize (Hb bp Hin).
    destruct (bp =? 0)%N; [split; apply completes_ret|].
    simpl in Hb. apply IH; [assumption | lia]. }
  assert (HL : forall lp, In lp [l0; l1; l2; l3] ->
            completes (if (lp =? 0)%N then ret 0%N
                       else SearchNodes_leaf lp) m /\
            completes (if (lp =? 0)%N then ret 0%N
                       else SearchElements_leaf lp) m).
  { intros lp Hin. specialize (Hl lp Hin).
    destruct (lp =? 0)%N; [split; apply completes_ret|].
    simpl in Hl. now apply completes_leaf. }
  split; (apply (completes_bind_with _ _ m c); [now apply load_Some|]);
    (apply completes_bind; [apply completes_inside|]);
    intros inside; destruct inside; try apply completes_ret;
    rewrite Eb, El; apply completes_first_nonnull;
    repeat constructor;
    first [ apply HB; simpl; tauto | apply HL; simpl; tauto ].
Qed.

(** C6.  A click-search query leaves the tree as it is and can be
    repeated.  In the store model a query runs on the memory that holds
    the cells of the tree and on the search object, and may change
    either.  Whenever [FindNode] or [FindElement] completes, every cell of
    the store is as before, the search object holds the query point, and
    the same query run again from the state it left returns the same
    result and leaves the same state.  On a well-formed tree of cells,
    with a recursion budget of at least its depth, both queries
    complete. *)
Theorem click_search_leaves_store
  (st : Store) (depth budget : nat) (root : ptr) (px py : Q)
  (before : ClickSearch.ClickSearch) :
  wf_branch st depth root = true ->
  (depth <= budget)%nat ->
  let start := {| store := st; this := before |} in
  let rest := {| store := st; this := {| ClickSearch.x := px;
                                         ClickSearch.y := py |} |} in
  (exists node,
     FindNode budget root px py start = Some (node, rest) /\
     FindNode budget root px py rest = Some (node, rest)) /\
  (exists element,
     FindElement budget root px py start = Some (element, rest) /\
     FindElement budget root px py rest = Some (element, rest)) /\
  (forall m r m',
     FindNode budget root px py m = Some (r, m') ->
     store m' = store m /\
     this m' = {| ClickSearch.x := px; ClickSearch.y := py |} /\
     FindNode budget root px py m' = Some (r, m')) /\
  (forall m r m',
     FindElement budget root px py m = Some (r, m') ->
     store m' = store m /\
     this m' = {| ClickSearch.x := px; ClickSearch.y := py |} /\
     FindElement budget root px py m' = Some (r, m')).
Proof.
  intros Hwf Hle. cbv zeta.
  destruct (completes_branch
              {| store := st; this := {| ClickSearch.x := px;
                                         ClickSearch.y := py |} |}
              depth budget root Hwf Hle) as [[node Hn] [element He]].
  split; [|split; [|split]].
  - exists node. split; exact Hn.
  - exists element. split; exact He.
  - intros m r m' H. unfold FindNode, bind, set_point in *.
    pose proof (reads_only_SearchNodes_branch _ _ _ _ _ H) as E.
    subst m'. simpl. repeat split. exact H.
  - intros m r m' H. unfold FindElement, bind, set_point in *.
    pose proof (reads_only_SearchElements_branch _ _ _ _ _ H) as E.
    subst m'. simpl. repeat split. exact H.
Qed.

End StoreQueries.

Lemma click_search_leaves_store_witness :
  let rest := {| ClickSearchStore.store := Examples.store;
                 ClickSearchStore.this := {| ClickSearch.x := 1#4;
                                             ClickSearch.y := 1#4 |} |} in
  exists node,
    ClickSearchStore.FindNode 1 1%N (1#4) (1#4)
      {| ClickSearchStore.store := Examples.store;
         ClickSearchStore.this := ClickSearch.new |}
    = Some (node, rest) /\
    ClickSearchStore.FindNode 1 1%N (1#4) (1#4) rest = Some (node, rest).
Proof.
  apply (click_search_leaves_store Examples.store 1 1 1%N (1#4) (1#4)
           ClickSearch.new).
  - vm_compute. reflexivity.
  - apply le_n.
Defined.

(** ** The leaf scan over computed distances *)
Section ComputedDistanceResults.
Import adcData QuadtreeData ClickSearch.

(** The scan of the click search is the scan over computed distances at
    the exact squared distance. *)
Lemma SearchNodes_leaf_exact_instance (this : ClickSearch) (l : leaf) :
  ComputedDistance.SearchNodes_leaf Q DistanceSq Qltb 0 this l
  = SearchNodes_leaf this l.
Proof.
  unfold ComputedDistance.SearchNodes_leaf, SearchNodes_leaf.
  destruct (PointIsInsideSquare this (leaf_bounds l)); [|reflexivity].
  assert (H : forall ns s s',
            ComputedDistance.itStarted s = itStarted s' ->
            ComputedDistance.currClosest s = currClosest s' ->
            ComputedDistance.recordDistance s = recordDistance s' ->
            ComputedDistance.currClosest
              (fold_left (ComputedDistance.scan_step Q DistanceSq Qltb this)
                 ns s)
            = currClosest (fold_left (scan_step this) ns s')).
  { induction ns as [|n ns IH]; intros s s' H1 H2 H3; [exact H2|].
    simpl. apply IH;
      unfold ComputedDistance.scan_step, scan_step; rewrite H1, H3;
      destruct (negb (itStarted s')); simpl; try reflexivity;
      destruct (Qltb _ _); simpl; first [reflexivity | assumption]. }
  apply H; reflexivity.
Qed.

Variable D : Type.
Variable Distance : ClickSearch -> Node -> D.
Variable less : D -> D -> bool.
Variable zero : D.

(** The comparison is asymmetric, as [<] on [float] values is. *)
Hypothesis less_asym : forall a b, less a b = true -> less b a = false.

Lemma less_irrefl (a : D) : less a a = false.
Proof.
  destruct (less a a) eqn:E; [|reflexivity].
  rewrite (less_asym a a E) in E. discriminate.
Qed.

(** Once started on [first], the scan holds [first] or a node compared
    as closer than [first], taken from the list. *)
Lemma scan_holds (this : ClickSearch) (first : Node) (ns : list Node)
  (s : ComputedDistance.scan D) (c : Node) :
  ComputedDistance.itStarted s = true ->
  ComputedDistance.recordDistance s = Distance this first ->
  ComputedDistance.currClosest s = Some c ->
  exists c',
    ComputedDistance.currClosest
      (fold_left (ComputedDistance.scan_step D Distance less this) ns s)
    = Some c' /\
    (c' = c \/ (In c' ns /\
                less (Distance this c') (Distance this first) = true)).
Proof.
  revert s c.
  induction ns as [|n ns IH]; intros s c Hst Hrec Hc; simpl.
  - exists c. auto.
  - unfold ComputedDistance.scan_step at 2. rewrite Hst, Hrec. simpl.
    destruct (less (Distance this n) (Distance this first)) eqn:E.
    + destruct (IH (ComputedDistance.mkScan D true (Some n)
                      (Distance this first)) n eq_refl eq_refl eq_refl)
        as [c' [Hc' Hor]].
      exists c'. split; [exact Hc'|]. right.
      destruct Hor as [->|[Hin Hl]]; (split; [simpl; tauto | assumption]).
    + destruct (IH s c Hst Hrec Hc) as [c' [Hc' Hor]].
      exists c'. split; [exact Hc'|].
      destruct Hor as [->|[Hin Hl]]; [now left|].
      right. split; [simpl; tauto | assumption].
Qed.

(** Whatever [Distance] computes: a node returned for a leaf is a node of
    the leaf, the program never compares it as farther than the first
    node of the leaf, and in a leaf with at most two nodes it never
    compares any node of the leaf as closer than the node returned. *)
Theorem SearchNodes_leaf_computed_nearest
  (this : ClickSearch) (l : leaf) (n : Node) :
  ComputedDistance.SearchNodes_leaf D Distance less zero this l = Some n ->
  In n (nodes l) /\
  (forall first rest, nodes l = first :: rest ->
     ComputedDistance.not_farther D Distance less this n first) /\
  ((length (nodes l) <= 2)%nat ->
   forall m, In m (nodes l) ->
     ComputedDistance.not_farther D Distance less this n m).
Proof.
  unfold ComputedDistance.SearchNodes_leaf, ComputedDistance.not_farther.
  destruct (PointIsInsideSquare this (leaf_bounds l)); [|discriminate].
  destruct (nodes l) as [|first rest]; [discriminate|].
  simpl fold_left. intros H.
  destruct (scan_holds this first rest
              (ComputedDistance.scan_step D Distance less this
                 (ComputedDistance.scan_init D zero) first)
              first eq_refl eq_refl eq_refl)
    as [c' [Hc' Hor]].
  rewrite Hc' in H. injection H as <-.
  split; [|split].
  - destruct Hor as [->|[Hin _]]; [now left | now right].
  - intros f r E. injection E as <- <-.
    destruct Hor as [->|[_ Hl]]; [apply less_irrefl | now apply less_asym].
  - intros Hlen m Hm.
    destruct rest as [|second [|third rest]]; [| |simpl in Hlen; lia].
    + destruct Hor as [->|[[] _]]. destruct Hm as [<-|[]].
      apply less_irrefl.
    + simpl in Hc'.
      unfold ComputedDistance.scan_step in Hc'. simpl in Hc'.
      destruct (less (Distance this second) (Distance this first)) eqn:E;
        simpl in Hc'; injection Hc' as <-;
        destruct Hm as [<-|[<-|[]]];
        first [ apply less_irrefl | now apply less_asym | exact E ].
Qed.

End ComputedDistanceResults.

Lemma SearchNodes_leaf_computed_nearest_witness :
  ComputedDistance.not_farther Q ClickSearch.DistanceSq Qltb
    {| ClickSearch.x := 1#4; ClickSearch.y := 1#4 |}
    Examples.nodeB Examples.nodeA.
Proof.
  apply (SearchNodes_leaf_computed_nearest Q ClickSearch.DistanceSq Qltb 0
           (fun a b H => proj2 (Qltb_ge b a)
                           (Qlt_le_weak a b (proj1 (Qltb_lt a b) H)))
           {| ClickSearch.x := 1#4; ClickSearch.y := 1#4 |}
           {| QuadtreeData.leaf_bounds := QuadtreeData.mkBounds 0 1 0 1;
              QuadtreeData.nodes := [Examples.nodeA; Examples.nodeB];
              QuadtreeData.elements := [] |}
           Examples.nodeB).
  - vm_compute. reflexivity.
  - simpl. lia.
  - simpl. tauto.
Defined.
